(** * Verification of [scripts_analysis/run_metrics.py]

    A shallow embedding of the label aligner [guided_relabel], of the
    utility [range_aware_ssim] and of the hyper-parameter dispatch of the
    batch driver, followed by the properties established about them.

    Modelling conventions.
    - A NumPy array is an integer dtype, a shape and its row-major buffer
      ([ndarray]). The dtypes are int8 to int64 and uint8 to uint32;
      storing into an array and subtracting two NumPy scalars reduce the
      value to the dtype ([cast]), as NumPy does. Lists of Python integers
      become int64 arrays ([mk_ndarray], [of_rows]).
    - The indicator matrices are created with [dtype=np.int16]; integer
      [np.matmul] keeps that type and accumulates in it, so every product
      and every partial sum is reduced by [wrap16].
    - [H * W - <int16 array>] mixes a Python integer with an int16 array.
      Under the value-based promotion of NumPy 1.x, current when the script
      was written, the result type is wide enough for [H * W], hence the
      subtraction itself is exact.
    - [intersection_matrix / union_matrix] is true division into float64.
      The quotients are modelled as exact rationals ([Q]): float64 division
      is correctly rounded, hence monotone, and two different quotients
      whose denominators stay below 2^26 never round to the same float.
    - [assert] raises [AssertionError]; exceptions are values of [exn].
    - A Python [dict] is the list of its bindings in insertion order; the
      code that handles dictionaries runs in the monad [py], whose errors
      are [KeyError] and the exceptions of [exn].
    - Routines of [utils] (the metrics, [most_persistent_structures],
      [point_hint_seg]) are not part of this file: they are parameters. *)

From Stdlib Require Import String ZArith QArith List Sorted Bool Lia.
Import ListNotations.

Open Scope Z_scope.

(** ** Exceptions and results *)

Inductive exn : Type :=
| AssertionError
| ValueError
| IndexError
| NameError
| ExternalError.

Inductive result (A : Type) : Type :=
| Ok (a : A)
| Raise (e : exn).

Arguments Ok {A} a.
Arguments Raise {A} e.

Definition bind {A B : Type} (r : result A) (k : A -> result B) : result B :=
  match r with
  | Ok a => k a
  | Raise e => Raise e
  end.

Notation "x <- r ;; k" := (bind r (fun x => k))
  (at level 61, r at next level, right associativity).

Definition lookup {A : Type} (l : list A) (i : nat) : result A :=
  match nth_error l i with
  | Some a => Ok a
  | None => Raise IndexError
  end.

(** ** Arrays *)

(** The integer dtypes of label maps. *)
Inductive dtype : Type :=
| int8 | int16 | int32 | int64
| uint8 | uint16 | uint32.

Definition bits (t : dtype) : Z :=
  match t with
  | int8 | uint8 => 8
  | int16 | uint16 => 16
  | int32 | uint32 => 32
  | int64 => 64
  end.

Definition signed (t : dtype) : bool :=
  match t with
  | int8 | int16 | int32 | int64 => true
  | uint8 | uint16 | uint32 => false
  end.

(** Conversion of an integer to the dtype [t]: what is kept of a value
    stored into an array of that dtype, and of the result of an operation
    on scalars of that dtype. *)
Definition cast (t : dtype) (z : Z) : Z :=
  if signed t
  then (z + 2 ^ (bits t - 1)) mod 2 ^ bits t - 2 ^ (bits t - 1)
  else z mod 2 ^ bits t.

Definition signed_of_bits (n : Z) : dtype :=
  if n <=? 8 then int8 else if n <=? 16 then int16
  else if n <=? 32 then int32 else int64.

Definition unsigned_of_bits (n : Z) : dtype :=
  if n <=? 8 then uint8 else if n <=? 16 then uint16 else uint32.

(** [np.promote_types]: the dtype of the result of an operation on two
    scalars. *)
Definition promote (s t : dtype) : dtype :=
  match signed s, signed t with
  | true, true => signed_of_bits (Z.max (bits s) (bits t))
  | false, false => unsigned_of_bits (Z.max (bits s) (bits t))
  | true, false => if bits t <? bits s then s else signed_of_bits (2 * bits t)
  | false, true => if bits s <? bits t then t else signed_of_bits (2 * bits s)
  end.

Record ndarray : Type :=
  mk_array { dtype_of : dtype; shape : list nat; data : list Z }.

(** An array built from Python integers has the default integer dtype. *)
Definition mk_ndarray (shape : list nat) (data : list Z) : ndarray :=
  mk_array int64 shape data.

Definition size_of (s : list nat) : nat := fold_right Nat.mul 1%nat s.

(** Every NumPy array holds as many elements as its shape announces. *)
Definition wf (a : ndarray) : Prop := length (data a) = size_of (shape a).

Definition shape_eqb (s t : list nat) : bool :=
  if list_eq_dec Nat.eq_dec s t then true else false.

(** [np.array] applied to a list of rows. *)
Definition of_rows (rows : list (list Z)) : ndarray :=
  mk_ndarray [length rows; length (hd [] rows)] (concat rows).

(** [a.reshape(n)]: the buffer itself, provided the element count agrees. *)
Definition reshape (a : ndarray) (n : nat) : result (list Z) :=
  if Nat.eqb (length (data a)) n then Ok (data a) else Raise ValueError.

(** [np.zeros_like]: same dtype, same shape, zeros. *)
Definition zeros_like (a : ndarray) : ndarray :=
  mk_array (dtype_of a) (shape a) (map (fun _ => 0) (data a)).

Fixpoint map2 {A B C : Type} (f : A -> B -> C) (l : list A) (m : list B)
  : list C :=
  match l, m with
  | x :: l', y :: m' => f x y :: map2 f l' m'
  | _, _ => []
  end.

(** ** [np.unique]: the distinct values, in ascending order *)

Fixpoint insert_sorted (x : Z) (l : list Z) : list Z :=
  match l with
  | [] => [x]
  | y :: t =>
      if x <? y then x :: l
      else if x =? y then l
      else y :: insert_sorted x t
  end.

Definition np_unique (l : list Z) : list Z :=
  fold_left (fun acc x => insert_sorted x acc) l [].

Definition enumerate {A : Type} (l : list A) : list (nat * A) :=
  combine (seq 0 (length l)) l.

(** ** int16 arithmetic *)

Definition wrap16 (z : Z) : Z := (z + 32768) mod 65536 - 32768.

(** One entry of an int16 matrix product: the inner product of a row of
    the left factor with a column of the right one, accumulated in int16. *)
Definition dot16 (u v : list Z) : Z :=
  fold_left (fun acc xy => wrap16 (acc + wrap16 (fst xy * snd xy)))
            (combine u v) 0.

(** [np.matmul(A, B.T)] for two int16 matrices given by their rows. *)
Definition matmul_nt (A B : list (list Z)) : list (list Z) :=
  map (fun a => map (fun b => dot16 a b) B) A.

(** [1 - M] on an int16 matrix. *)
Definition one_minus (M : list (list Z)) : list (list Z) :=
  map (map (fun x => wrap16 (1 - x))) M.

(** [np.array([flat == i for i in labels], dtype=np.int16)].
    (For an empty [labels] NumPy builds a one-dimensional empty array and
    the products below degenerate to scalars; they are never indexed in
    that case, which only arises for empty images.) *)
Definition one_hot (flat labels : list Z) : list (list Z) :=
  map (fun i => map (fun x => if x =? i then 1 else 0) flat) labels.

(** ** The IOU matrix *)

Definition intersection_matrix (label_pred_vec label_true_vec : list (list Z))
  : list (list Z) :=
  matmul_nt label_pred_vec label_true_vec.

Definition union_matrix (HW : nat) (label_pred_vec label_true_vec : list (list Z))
  : list (list Z) :=
  map (map (fun c => Z.of_nat HW - c))
      (matmul_nt (one_minus label_pred_vec) (one_minus label_true_vec)).

Definition true_divide (n d : Z) : Q := (inject_Z n / inject_Z d)%Q.

Definition iou_matrix (HW : nat) (label_pred_vec label_true_vec : list (list Z))
  : list (list Q) :=
  map2 (map2 true_divide)
       (intersection_matrix label_pred_vec label_true_vec)
       (union_matrix HW label_pred_vec label_true_vec).

(** ** [np.argmax]: the first position holding the maximum *)

Fixpoint argmax_from (best_i : nat) (best : Q) (i : nat) (l : list Q) : nat :=
  match l with
  | [] => best_i
  | x :: t =>
      match (best ?= x)%Q with
      | Lt => argmax_from i x (S i) t
      | _ => argmax_from best_i best (S i) t
      end
  end.

Definition argmax (l : list Q) : result nat :=
  match l with
  | [] => Raise ValueError
  | x :: t => Ok (argmax_from 0%nat x 1%nat t)
  end.

(** ** [guided_relabel] *)

(** [out[mask] = v]: the value is converted to the dtype of [out]. *)
Definition masked_assign (out : ndarray) (mask : list bool) (v : Z) : ndarray :=
  mk_array (dtype_of out) (shape out)
    (map2 (fun o (m : bool) => if m then cast (dtype_of out) v else o)
          (data out) mask).

(** The loop [for i, label_pred_idx in enumerate(np.unique(label_pred))],
    threading the output buffer [renumbered_label_pred]. *)
Fixpoint relabel_loop (label_pred label_true : list Z) (iou : list (list Q))
  (items : list (nat * Z)) (renumbered_label_pred : ndarray)
  : result ndarray :=
  match items with
  | [] => Ok renumbered_label_pred
  | (i, label_pred_idx) :: rest =>
      let pix_loc := map (fun x => x =? label_pred_idx) label_pred in
      row <- lookup iou i ;;
      j <- argmax row ;;
      label_true_idx <- lookup (np_unique label_true) j ;;
      relabel_loop label_pred label_true iou rest
        (masked_assign renumbered_label_pred pix_loc label_true_idx)
  end.

Definition guided_relabel (label_pred label_true : ndarray) : result ndarray :=
  if negb (shape_eqb (shape label_pred) (shape label_true))
  then Raise AssertionError
  else
    match shape label_pred with
    | [H; W] =>
        flat_pred <- reshape label_pred (H * W) ;;
        let label_pred_vec := one_hot flat_pred (np_unique (data label_pred)) in
        flat_true <- reshape label_true (H * W) ;;
        let label_true_vec := one_hot flat_true (np_unique (data label_true)) in
        let iou := iou_matrix (H * W) label_pred_vec label_true_vec in
        relabel_loop (data label_pred) (data label_true) iou
          (enumerate (np_unique (data label_pred)))
          (zeros_like label_pred)
    | _ => Raise ValueError
    end.

(** The inputs of the end-to-end scenario. *)
Definition scenario_predicted : ndarray :=
  of_rows [[1;1;2;2]; [1;1;2;2]; [3;3;0;0]; [3;3;0;0]].

Definition scenario_ground_truth : ndarray :=
  of_rows [[5;5;6;6]; [5;5;6;6]; [7;7;0;0]; [7;7;0;0]].

(** A 129 x 256 map: the first 128 rows carry label 1, the last row label 2. *)
Definition two_bands : ndarray :=
  mk_ndarray [129%nat; 256%nat] (repeat 1 (128 * 256) ++ repeat 2 256).

(** A 128 x 256 map made of a single region with label 1. *)
Definition one_region : ndarray :=
  mk_ndarray [128%nat; 256%nat] (repeat 1 (128 * 256)).

(** ** Pixel counts: what the matrix products are meant to compute

    The notions of this part are not translations of source lines; they
    describe the code and are tied to it by [iou_matrix_spec] and
    [guided_relabel_spec] below. *)

Definition count2 (f : Z -> Z -> bool) (l1 l2 : list Z) : Z :=
  fold_right (fun xy n => if f (fst xy) (snd xy) then n + 1 else n) 0
             (combine l1 l2).

(** Number of positions carrying [a] in [P] and [b] in [T]. *)
Definition inter_count (P T : list Z) (a b : Z) : Z :=
  count2 (fun x y => (x =? a) && (y =? b)) P T.

(** Number of positions carrying neither [a] in [P] nor [b] in [T]. *)
Definition neither_count (P T : list Z) (a b : Z) : Z :=
  count2 (fun x y => negb (x =? a) && negb (y =? b)) P T.

(** The entry of the IOU matrix for the labels [a] and [b], as the int16
    products deliver it. *)
Definition iou_entry (HW : nat) (P T : list Z) (a b : Z) : Q :=
  true_divide (wrap16 (inter_count P T a b))
              (Z.of_nat HW - wrap16 (neither_count P T a b)).

(** The ground-truth label selected for the predicted label [a]. *)
Definition assigned (HW : nat) (P T : list Z) (a : Z) : Z :=
  match argmax (map (iou_entry HW P T a) (np_unique T)) with
  | Ok j => nth j (np_unique T) 0
  | Raise _ => 0
  end.

(** What is stored for the predicted label [a] in an output of dtype [t]. *)
Definition written (t : dtype) (HW : nat) (P T : list Z) (a : Z) : Z :=
  cast t (assigned HW P T a).

(** Every value of [l] is representable in the dtype [t]. *)
Definition fits (t : dtype) (l : list Z) : Prop :=
  Forall (fun v => cast t v = v) l.

(** The elements of an array lie in the range of its dtype. *)
Definition in_range (a : ndarray) : Prop := fits (dtype_of a) (data a).

(** The masked store on a buffer, the value being already converted. *)
Definition assign_buffer (out : list Z) (mask : list bool) (v : Z) : list Z :=
  map2 (fun o (m : bool) => if m then v else o) out mask.

(** The exact inner product, without any reduction. *)
Definition dot (u v : list Z) : Z :=
  fold_right (fun xy n => fst xy * snd xy + n) 0 (combine u v).

(** Number of positions carrying [a]: the area of the region [a]. *)
Definition area (P : list Z) (a : Z) : Z :=
  Z.of_nat (count_occ Z.eq_dec P a).

(** The Intersection-over-Union of the regions [a] of [P] and [b] of [T],
    from the pixel counts. *)
Definition true_iou (P T : list Z) (a b : Z) : Q :=
  true_divide (inter_count P T a b)
              (area P a + area T b - inter_count P T a b).

(** The predicted map with its labels renamed by [g]. *)
Definition rename (g : Z -> Z) (a : ndarray) : ndarray :=
  mk_array (dtype_of a) (shape a) (map g (data a)).

(** A uint8 prediction and an int64 ground truth holding the label 300. *)
Definition narrow_predicted : ndarray := mk_array uint8 [1%nat; 2%nat] [0; 1].

Definition wide_ground_truth : ndarray :=
  mk_array int64 [1%nat; 2%nat] [300; 6].

(** ** [range_aware_ssim] *)

(** [a.max()] and [a.min()]; both raise on an empty array. *)
Definition array_max (a : ndarray) : result Z :=
  match data a with
  | [] => Raise ValueError
  | x :: t => Ok (fold_left Z.max t x)
  end.

Definition array_min (a : ndarray) : result Z :=
  match data a with
  | [] => Raise ValueError
  | x :: t => Ok (fold_left Z.min t x)
  end.

(** A NumPy scalar: its value and its dtype. *)
Definition scalar : Type := (Z * dtype)%type.

(** Python's [max(x, y)] and [min(x, y)]: the first argument is kept
    unless the second is strictly larger, respectively smaller. *)
Definition py_max (x y : scalar) : scalar := if fst x <? fst y then y else x.

Definition py_min (x y : scalar) : scalar := if fst y <? fst x then y else x.

(** [x - y] on two NumPy scalars: computed in the promoted dtype. *)
Definition scalar_sub (x y : scalar) : scalar :=
  let t := promote (snd x) (snd y) in (cast t (fst x - fst y), t).

Definition data_range (a b : ndarray) : result Z :=
  a_max <- array_max a ;;
  b_max <- array_max b ;;
  let data_max := py_max (a_max, dtype_of a) (b_max, dtype_of b) in
  a_min <- array_min a ;;
  b_min <- array_min b ;;
  let data_min := py_min (a_min, dtype_of a) (b_min, dtype_of b) in
  Ok (fst (scalar_sub data_max data_min)).

Section RangeAwareSsim.

(** [utils.metrics.ssim], an external routine: it receives the two arrays
    and the data range, and may itself raise. *)
Variable score : Type.
Variable ssim : ndarray -> ndarray -> Z -> result score.

Definition range_aware_ssim (a b : ndarray) : result score :=
  r <- data_range a b ;;
  ssim a b r.

End RangeAwareSsim.

(** ** The driver: hyper-parameter dispatch and its uses *)

Record HParams : Type := mk_hparams {
  is_binary : bool;
  min_frame_ratio : Q;
  min_area_ratio : Q
}.

(** The module-level name [hparams]: bound to a record, or unbound. *)
Definition binding : Type := option HParams.

(** Lines 181-192: an [if]/[elif] without [else]. *)
Definition dispatch (dataset_name : string) : binding :=
  if String.eqb dataset_name "retina" then
    Some (mk_hparams true (1 # 2) (1 # 200))
  else if String.eqb dataset_name "berkeley" then
    Some (mk_hparams false (1 # 2) (1 # 500))
  else None.

(** Evaluating the name [hparams]. *)
Definition read_hparams (env : binding) : result HParams :=
  match env with
  | Some h => Ok h
  | None => Raise NameError
  end.

(** Places of the driver at which a run can stop. *)
Inductive site : Type :=
| AtDispatch
| AtFileCountAssert
| AtLoad (image_idx : nat)
| AtConsistencyAssert (image_idx : nat)
| AtSegmentDiffusion (image_idx : nat)
| AtMetrics (image_idx : nat)
| AtReport.

Inductive outcome : Type :=
| Completed
| Failed (e : exn) (where_ : site).

(** What a run depends on besides the code shown: the configuration, the
    three globbed file lists and the behaviour of the collaborators. *)
Record world : Type := mk_world {
  dataset_name : string;
  n_baselines : nat;
  n_kmeans : nat;
  n_diffusion : nat;
  loads_ok : nat -> bool;
  consistent : nat -> bool;
  segment_ok : nat -> bool;
  metrics_ok : nat -> bool
}.

(** One iteration of [for image_idx in ...] (lines 233-273). *)
Definition iteration (w : world) (env : binding) (image_idx : nat) : outcome :=
  if negb (loads_ok w image_idx) then Failed ExternalError (AtLoad image_idx)
  else if negb (consistent w image_idx)
  then Failed AssertionError (AtConsistencyAssert image_idx)
  else
    match read_hparams env with
    | Raise e => Failed e (AtSegmentDiffusion image_idx)
    | Ok h =>
        if negb (segment_ok w image_idx)
        then Failed ExternalError (AtSegmentDiffusion image_idx)
        else
          match read_hparams env with
          | Raise e => Failed e (AtMetrics image_idx)
          | Ok h' =>
              if metrics_ok w image_idx then Completed
              else Failed ExternalError (AtMetrics image_idx)
          end
    end.

Fixpoint batch (w : world) (env : binding) (idxs : list nat) : outcome :=
  match idxs with
  | [] => Completed
  | i :: rest =>
      match iteration w env i with
      | Completed => batch w env rest
      | failure => failure
      end
  end.

(** The whole script after the configuration has been parsed. *)
Definition run (w : world) : outcome :=
  let env := dispatch (dataset_name w) in
  if negb (Nat.eqb (n_baselines w) (n_kmeans w) &&
           Nat.eqb (n_baselines w) (n_diffusion w))
  then Failed AssertionError AtFileCountAssert
  else
    match batch w env (seq 0 (n_baselines w)) with
    | Completed =>
        match read_hparams env with
        | Raise e => Failed e AtReport
        | Ok h => Completed
        end
    | failure => failure
    end.

(** A run on one file per directory, all collaborators behaving, with a
    dataset name the dispatch does not know. *)
Definition sample_world : world :=
  mk_world "brain" 1 1 1 (fun _ => true) (fun _ => true)
           (fun _ => true) (fun _ => true).

(** ** Dictionaries, the loaders and [segment_diffusion] *)

(** Exceptions of the dictionary-handling code: a missing key, or one of
    the exceptions above. *)
Inductive pyexn : Type :=
| KeyError (key : string)
| Builtin (e : exn).

Inductive py (A : Type) : Type :=
| Return (a : A)
| Throw (e : pyexn).

Arguments Return {A} a.
Arguments Throw {A} e.

Definition py_bind {A B : Type} (r : py A) (k : A -> py B) : py B :=
  match r with
  | Return a => k a
  | Throw e => Throw e
  end.

Notation "x <~ r ;; k" := (py_bind r (fun x => k))
  (at level 61, r at next level, right associativity).

Definition lift {A : Type} (r : result A) : py A :=
  match r with
  | Ok a => Return a
  | Raise e => Throw (Builtin e)
  end.

(** The seven compared methods (lines 211-219): name, key of the reference
    map, key of the candidate map. *)
Definition entity_tuples : list (string * string * string) :=
  [ ("random", "label_true", "label_random");
    ("watershed", "label_true", "label_watershed");
    ("felzenszwalb", "label_true", "label_felzenszwalb");
    ("ours (kmeans, multiclass)", "label_true", "label_kmeans");
    ("ours (kmeans, binary)", "label_true", "seg_kmeans");
    ("ours (diffusion, multiclass)", "label_true", "label_diffusion");
    ("ours (diffusion, binary)", "label_true", "seg_diffusion") ]%string.

Section Hashmaps.

(** The arrays stored in the archives and dictionaries: images, latent
    codes and label maps alike; this part of the script only moves them
    around. *)
Variable V : Type.

(** A Python [dict] with string keys: the bindings in insertion order,
    each key bound once. *)
Definition dict : Type := list (string * V).

(** [d[k]] *)
Fixpoint dict_get (d : dict) (k : string) : py V :=
  match d with
  | [] => Throw (KeyError k)
  | (k', v) :: t => if String.eqb k' k then Return v else dict_get t k
  end.

(** [d[k] = v]: an existing key keeps its place, a new key goes last. *)
Fixpoint dict_set (d : dict) (k : string) (v : V) : dict :=
  match d with
  | [] => [(k, v)]
  | (k', v') :: t =>
      if String.eqb k' k then (k', v) :: t else (k', v') :: dict_set t k v
  end.

(** [d.keys()] *)
Definition keys (d : dict) : list string := map fst d.

(** [load_baselines], on the archive that [np.load(path)] opened. *)
Definition load_baselines (numpy_array : dict) : py dict :=
  let hashmap := [] in
  image <~ dict_get numpy_array "image" ;;
  let hashmap := dict_set hashmap "image" image in
  label <~ dict_get numpy_array "label" ;;
  let hashmap := dict_set hashmap "label_true" label in
  label_random <~ dict_get numpy_array "label_random" ;;
  let hashmap := dict_set hashmap "label_random" label_random in
  label_watershed <~ dict_get numpy_array "label_watershed" ;;
  let hashmap := dict_set hashmap "label_watershed" label_watershed in
  label_felzenszwalb <~ dict_get numpy_array "label_felzenszwalb" ;;
  let hashmap := dict_set hashmap "label_felzenszwalb" label_felzenszwalb in
  Return hashmap.

Definition load_kmeans (numpy_array : dict) : py dict :=
  let hashmap := [] in
  image <~ dict_get numpy_array "image" ;;
  let hashmap := dict_set hashmap "image" image in
  label <~ dict_get numpy_array "label" ;;
  let hashmap := dict_set hashmap "label_true" label in
  latent <~ dict_get numpy_array "latent" ;;
  let hashmap := dict_set hashmap "latent" latent in
  label_kmeans <~ dict_get numpy_array "label_kmeans" ;;
  let hashmap := dict_set hashmap "label_kmeans" label_kmeans in
  seg_kmeans <~ dict_get numpy_array "seg_kmeans" ;;
  let hashmap := dict_set hashmap "seg_kmeans" seg_kmeans in
  Return hashmap.

Definition load_diffusion (numpy_array : dict) : py dict :=
  let hashmap := [] in
  image <~ dict_get numpy_array "image" ;;
  let hashmap := dict_set hashmap "image" image in
  recon <~ dict_get numpy_array "recon" ;;
  let hashmap := dict_set hashmap "recon" recon in
  label <~ dict_get numpy_array "label" ;;
  let hashmap := dict_set hashmap "label_true" label in
  latent <~ dict_get numpy_array "latent" ;;
  let hashmap := dict_set hashmap "latent" latent in
  granularities <~ dict_get numpy_array "granularities_diffusion" ;;
  let hashmap := dict_set hashmap "granularities_diffusion" granularities in
  labels_diffusion <~ dict_get numpy_array "labels_diffusion" ;;
  let hashmap := dict_set hashmap "labels_diffusion" labels_diffusion in
  Return hashmap.

(** The inner loop of [combine_hashmaps]:
    [for k in hashmap.keys(): combined[k] = hashmap[k]]. *)
Fixpoint copy_keys (hashmap : dict) (ks : list string) (combined : dict)
  : py dict :=
  match ks with
  | [] => Return combined
  | k :: rest =>
      v <~ dict_get hashmap k ;;
      copy_keys hashmap rest (dict_set combined k v)
  end.

(** The outer loop, [for hashmap in args]. *)
Fixpoint combine_loop (args : list dict) (combined : dict) : py dict :=
  match args with
  | [] => Return combined
  | hashmap :: rest =>
      combined' <~ copy_keys hashmap (keys hashmap) combined ;;
      combine_loop rest combined'
  end.

Definition combine_hashmaps (args : list dict) : py dict :=
  combine_loop args [].

(** What [segment_diffusion] needs from NumPy and from [utils]: the
    [shape] attribute, [reshape] to a shape, and the two external routines
    [most_persistent_structures] (which returns a pair) and
    [point_hint_seg]. *)
Variable aux : Type.
Variable shape_of : V -> list nat.
Variable reshape_to : V -> list nat -> result V.
Variable most_persistent_structures : V -> Q -> Q -> py (V * aux).
Variable point_hint_seg : V -> V -> py V.

Definition segment_diffusion (hashmap : dict) (hparams : HParams) : py dict :=
  label_true <~ dict_get hashmap "label_true" ;;
  labels_diffusion <~ dict_get hashmap "labels_diffusion" ;;
  match shape_of label_true with
  | [H; W] =>
      match shape_of labels_diffusion with
      | B :: _ =>
          labels_diffusion <~ lift (reshape_to labels_diffusion [B; H; W]) ;;
          r <~ most_persistent_structures labels_diffusion
                 (min_frame_ratio hparams) (min_area_ratio hparams) ;;
          let persistent_label := fst r in
          seg <~ point_hint_seg persistent_label label_true ;;
          let hashmap := dict_set hashmap "seg_diffusion" seg in
          let hashmap := dict_set hashmap "label_diffusion" persistent_label in
          Return hashmap
      | [] => Throw (Builtin IndexError)
      end
  | _ => Throw (Builtin ValueError)
  end.

(** [(x == y).all()], as the two consistency assertions use it. *)
Variable all_equal : V -> V -> py bool.

(** [assert (b[key] == k[key]).all() and (b[key] == d[key]).all()] *)
Definition assert_same (key : string) (b k d : dict) : py unit :=
  bv <~ dict_get b key ;;
  kv <~ dict_get k key ;;
  same <~ all_equal bv kv ;;
  if negb same then Throw (Builtin AssertionError)
  else
    bv <~ dict_get b key ;;
    dv <~ dict_get d key ;;
    same <~ all_equal bv dv ;;
    if negb same then Throw (Builtin AssertionError) else Return tt.

(** Lines 233-248 of the batch loop, for the three opened archives of one
    image and bound hyper-parameters. *)
Definition load_and_segment (baselines kmeans diffusion : dict)
  (hparams : HParams) : py dict :=
  baselines_hashmap <~ load_baselines baselines ;;
  kmeans_hashmap <~ load_kmeans kmeans ;;
  diffusion_hashmap <~ load_diffusion diffusion ;;
  _ <~ assert_same "image" baselines_hashmap kmeans_hashmap diffusion_hashmap ;;
  _ <~ assert_same "label_true" baselines_hashmap kmeans_hashmap
         diffusion_hashmap ;;
  hashmap <~ combine_hashmaps
               [baselines_hashmap; kmeans_hashmap; diffusion_hashmap] ;;
  segment_diffusion hashmap hparams.

End Hashmaps.

Arguments dict_get {V} d k.
Arguments dict_set {V} d k v.
Arguments keys {V} d.

(** [k in d] *)
Definition has_key {V : Type} (d : dict V) (k : string) : bool :=
  existsb (String.eqb k) (keys d).

(** The first of the keys [required], in the order given, that [d] lacks. *)
Definition first_missing {V : Type} (d : dict V) (required : list string)
  : option string :=
  find (fun k => negb (has_key d k)) required.

(** Three small archives and stand-ins for the collaborators, to run the
    loading code on: arrays are plain numbers here. *)
Definition sample_baselines : dict Z :=
  [("image", 1); ("label", 2); ("label_random", 3); ("label_watershed", 4);
   ("label_felzenszwalb", 5)]%string.

Definition sample_kmeans : dict Z :=
  [("image", 1); ("label", 2); ("latent", 6); ("label_kmeans", 7);
   ("seg_kmeans", 8)]%string.

Definition sample_diffusion : dict Z :=
  [("image", 1); ("recon", 9); ("label", 2); ("latent", 6);
   ("granularities_diffusion", 10); ("labels_diffusion", 11)]%string.

Definition sample_load_and_segment : py (dict Z) :=
  load_and_segment Z unit (fun _ => [2%nat; 2%nat]) (fun v _ => Ok v)
    (fun v _ _ => Return (v + 1, tt)) (fun v _ => Return (v + 2))
    (fun x y => Return (x =? y))
    sample_baselines sample_kmeans sample_diffusion
    (mk_hparams false (1 # 2) (1 # 500)).

(** ** The metric loop (lines 221-230 and 250-273) *)

Section Metrics.

(** The metric routines of [utils.metrics] are external; [ssim] is reached
    through [range_aware_ssim]. *)
Variable score : Type.
Variable dice_coeff : ndarray -> ndarray -> py score.
Variable ergas : ndarray -> ndarray -> py score.
Variable rmse : ndarray -> ndarray -> py score.
Variable ssim : ndarray -> ndarray -> Z -> result score.

(** [metrics]: metric name, then method name, then the list of values. *)
Definition metric_table : Type := dict (dict (list score)).

(** [{tup[0]: [] for tup in entity_tuples}] *)
Definition empty_lists : dict (list score) :=
  fold_left (fun d tup => dict_set d (fst (fst tup)) []) entity_tuples [].

Definition initial_metrics : metric_table :=
  [("dice", empty_lists); ("ssim", empty_lists); ("ergas", empty_lists);
   ("rmse", empty_lists)]%string.

(** [metrics[name][entry]] *)
Definition values_of (metrics : metric_table) (name entry : string)
  : py (list score) :=
  per_entry <~ dict_get metrics name ;;
  dict_get per_entry entry.

(** [metrics[name][entry].append(value)]: the list is looked up first, the
    argument is evaluated next, and the list grows in place. *)
Definition append_to (metrics : metric_table) (name entry : string)
  (value : py score) : py metric_table :=
  per_entry <~ dict_get metrics name ;;
  values <~ dict_get per_entry entry ;;
  x <~ value ;;
  Return (dict_set metrics name (dict_set per_entry entry (values ++ [x]))).

(** [guided_relabel(label_pred=hashmap[p2], label_true=hashmap[p1])] *)
Definition relabelled (hashmap : dict ndarray) (p1 p2 : string) : py ndarray :=
  label_pred <~ dict_get hashmap p2 ;;
  label_true <~ dict_get hashmap p1 ;;
  lift (guided_relabel label_pred label_true).

(** The body of [for (entry, p1, p2) in entity_tuples]. *)
Definition score_entry (hparams : HParams) (hashmap : dict ndarray)
  (metrics : metric_table) (tup : string * string * string) : py metric_table :=
  let entry := fst (fst tup) in
  let p1 := snd (fst tup) in
  let p2 := snd tup in
  if is_binary hparams then
    metrics <~ append_to metrics "dice" entry
                 (a <~ dict_get hashmap p1 ;; b <~ dict_get hashmap p2 ;;
                  dice_coeff a b) ;;
    metrics <~ append_to metrics "ssim" entry
                 (a <~ dict_get hashmap p1 ;; b <~ dict_get hashmap p2 ;;
                  lift (range_aware_ssim score ssim a b)) ;;
    metrics <~ append_to metrics "ergas" entry
                 (a <~ dict_get hashmap p1 ;; b <~ dict_get hashmap p2 ;;
                  ergas a b) ;;
    append_to metrics "rmse" entry
      (a <~ dict_get hashmap p1 ;; b <~ dict_get hashmap p2 ;; rmse a b)
  else
    metrics <~ append_to metrics "ssim" entry
                 (a <~ dict_get hashmap p1 ;; b <~ relabelled hashmap p1 p2 ;;
                  lift (range_aware_ssim score ssim a b)) ;;
    metrics <~ append_to metrics "ergas" entry
                 (a <~ dict_get hashmap p1 ;; b <~ relabelled hashmap p1 p2 ;;
                  ergas a b) ;;
    append_to metrics "rmse" entry
      (a <~ dict_get hashmap p1 ;; b <~ relabelled hashmap p1 p2 ;; rmse a b).

Fixpoint score_entries (hparams : HParams) (hashmap : dict ndarray)
  (tuples : list (string * string * string)) (metrics : metric_table)
  : py metric_table :=
  match tuples with
  | [] => Return metrics
  | tup :: rest =>
      metrics' <~ score_entry hparams hashmap metrics tup ;;
      score_entries hparams hashmap rest metrics'
  end.

(** The list of [name] and [entry] holds in [metrics'] what it held in
    [metrics], followed by one more value. *)
Definition appended_once (metrics metrics' : metric_table)
  (name entry : string) : Prop :=
  exists old x,
    values_of metrics name entry = Return old /\
    values_of metrics' name entry = Return (old ++ [x]).

End Metrics.

(** Four 2 x 2 label maps and constant metric routines, to run the metric
    loop on. *)
Definition sample_maps : dict ndarray :=
  [("label_true", of_rows [[1; 1]; [2; 2]]);
   ("label_random", of_rows [[4; 3]; [3; 4]]);
   ("label_watershed", of_rows [[5; 5]; [6; 6]]);
   ("label_felzenszwalb", of_rows [[0; 0]; [0; 0]]);
   ("label_kmeans", of_rows [[7; 7]; [7; 8]]);
   ("seg_kmeans", of_rows [[0; 1]; [0; 1]]);
   ("label_diffusion", of_rows [[9; 9]; [8; 8]]);
   ("seg_diffusion", of_rows [[1; 1]; [0; 0]])]%string.

Definition sample_score_entries (hparams : HParams) : py (metric_table Z) :=
  score_entries Z (fun _ _ => Return 1) (fun _ _ => Return 2)
    (fun _ _ => Return 3) (fun _ _ r => Ok r)
    hparams sample_maps entity_tuples (initial_metrics Z).

Definition sample_scored (hparams : HParams) : metric_table Z :=
  match sample_score_entries hparams with
  | Return metrics => metrics
  | Throw _ => []
  end.

(** What the loading code returns on the three sample archives. *)
Definition sample_hashmap : dict Z :=
  [("image", 1); ("label_true", 2); ("label_random", 3);
   ("label_watershed", 4); ("label_felzenszwalb", 5); ("latent", 6);
   ("label_kmeans", 7); ("seg_kmeans", 8); ("recon", 9);
   ("granularities_diffusion", 10); ("labels_diffusion", 11);
   ("seg_diffusion", 14); ("label_diffusion", 12)]%string.

(** * Properties *)

(** ** Generic list facts *)

Lemma map2_map_same {A B C D : Type} (f : B -> C -> D) (g : A -> B) (h : A -> C)
      (l : list A) :
  map2 f (map g l) (map h l) = map (fun x => f (g x) (h x)) l.
Proof.
  induction l as [|x l IH]; simpl; [reflexivity|].
  now rewrite IH.
Qed.

Lemma map2_length {A B C : Type} (f : A -> B -> C) (l : list A) (m : list B) :
  length l = length m -> length (map2 f l m) = length l.
Proof.
  revert m; induction l as [|x l IH]; intros [|y m] E; simpl in *;
    try discriminate; auto.
Qed.



(** ** [np.unique] *)

Lemma insert_sorted_In (x y : Z) (l : list Z) :
  In y (insert_sorted x l) <-> y = x \/ In y l.
Proof.
  induction l as [|z l IH]; simpl.
  - intuition.
  - destruct (Z.ltb_spec x z).
    + simpl. intuition.
    + destruct (Z.eqb_spec x z).
      * subst. simpl. intuition.
      * simpl. rewrite IH. intuition.
Qed.

Lemma insert_sorted_sorted (x : Z) (l : list Z) :
  StronglySorted Z.lt l -> StronglySorted Z.lt (insert_sorted x l).
Proof.
  induction l as [|z l IH]; intros S; simpl.
  - repeat constructor.
  - inversion S as [|? ? S' F]; subst.
    destruct (Z.ltb_spec x z).
    + constructor; [assumption|].
      constructor; [assumption|].
      eapply Forall_impl; [|exact F]. intros; lia.
    + destruct (Z.eqb_spec x z); [assumption|].
      constructor; [auto|].
      rewrite Forall_forall in *. intros y Hy.
      apply insert_sorted_In in Hy. destruct Hy as [->|Hy]; [lia|auto].
Qed.

Lemma fold_insert_In (l acc : list Z) (y : Z) :
  In y (fold_left (fun acc x => insert_sorted x acc) l acc) <->
  In y l \/ In y acc.
Proof.
  revert acc; induction l as [|x l IH]; intros acc; simpl.
  - intuition.
  - rewrite IH, insert_sorted_In. intuition.
Qed.

Lemma fold_insert_sorted (l acc : list Z) :
  StronglySorted Z.lt acc ->
  StronglySorted Z.lt (fold_left (fun acc x => insert_sorted x acc) l acc).
Proof.
  revert acc; induction l as [|x l IH]; intros acc S; simpl; auto.
  apply IH, insert_sorted_sorted, S.
Qed.

Lemma np_unique_In (l : list Z) (y : Z) : In y (np_unique l) <-> In y l.
Proof.
  unfold np_unique. rewrite fold_insert_In. simpl. intuition.
Qed.

Lemma np_unique_sorted (l : list Z) : StronglySorted Z.lt (np_unique l).
Proof.
  apply fold_insert_sorted. constructor.
Qed.

Lemma sorted_lt_NoDup (l : list Z) : StronglySorted Z.lt l -> NoDup l.
Proof.
  induction 1 as [|x l S IH F]; constructor; auto.
  intros Hin. rewrite Forall_forall in F. specialize (F _ Hin). lia.
Qed.

Lemma np_unique_NoDup (l : list Z) : NoDup (np_unique l).
Proof. apply sorted_lt_NoDup, np_unique_sorted. Qed.

Lemma np_unique_nonempty (l : list Z) : l <> [] -> np_unique l <> [].
Proof.
  destruct l as [|x l]; [congruence|]. intros _ E.
  assert (In x (np_unique (x :: l))) as Hin by (apply np_unique_In; now left).
  rewrite E in Hin. destruct Hin.
Qed.

(** ** int16 products and pixel counts *)

Lemma wrap16_small (z : Z) : -32768 <= z <= 32767 -> wrap16 z = z.
Proof.
  intros Hz. unfold wrap16. rewrite Z.mod_small; lia.
Qed.

Lemma wrap16_range (z : Z) : -32768 <= wrap16 z <= 32767.
Proof.
  unfold wrap16. pose proof (Z.mod_pos_bound (z + 32768) 65536). lia.
Qed.

Lemma wrap16_add (a b : Z) : wrap16 (wrap16 a + wrap16 b) = wrap16 (a + b).
Proof.
  unfold wrap16.
  rewrite (Z.mod_eq (a + 32768) 65536), (Z.mod_eq (b + 32768) 65536) by lia.
  f_equal.
  replace (a + 32768 - 65536 * ((a + 32768) / 65536) - 32768 +
           (b + 32768 - 65536 * ((b + 32768) / 65536) - 32768) + 32768)
    with (a + b + 32768 +
          (- ((a + 32768) / 65536) - ((b + 32768) / 65536)) * 65536) by lia.
  apply Z_mod_plus_full.
Qed.


Lemma dot16_fold (l : list (Z * Z)) (acc z : Z) :
  acc = wrap16 z ->
  fold_left (fun acc xy => wrap16 (acc + wrap16 (fst xy * snd xy))) l acc =
  wrap16 (z + fold_right (fun xy n => fst xy * snd xy + n) 0 l).
Proof.
  revert acc z; induction l as [|[x y] l IH]; intros acc z ->; simpl.
  - f_equal. lia.
  - rewrite (IH _ (z + x * y)).
    + f_equal. lia.
    + apply wrap16_add.
Qed.

Lemma dot16_dot (u v : list Z) : dot16 u v = wrap16 (dot u v).
Proof.
  unfold dot16, dot. rewrite (dot16_fold _ 0 0); [reflexivity|].
  symmetry. apply wrap16_small. lia.
Qed.

Lemma dot_one_hot (P T : list Z) (a b : Z) :
  dot (map (fun x => if x =? a then 1 else 0) P)
      (map (fun x => if x =? b then 1 else 0) T) = inter_count P T a b.
Proof.
  unfold dot, inter_count, count2.
  revert T; induction P as [|x P IH]; intros [|y T];
    cbn [map combine fold_right fst snd]; auto.
  rewrite IH. destruct (x =? a), (y =? b); cbn [andb]; lia.
Qed.

Lemma dot_one_minus (P T : list Z) (a b : Z) :
  dot (map (fun x => wrap16 (1 - (if x =? a then 1 else 0))) P)
      (map (fun x => wrap16 (1 - (if x =? b then 1 else 0))) T)
  = neither_count P T a b.
Proof.
  unfold dot, neither_count, count2.
  revert T; induction P as [|x P IH]; intros [|y T];
    cbn [map combine fold_right fst snd]; auto.
  rewrite IH.
  destruct (x =? a), (y =? b); cbn [andb negb];
    change (wrap16 (1 - 1)) with 0; change (wrap16 (1 - 0)) with 1; lia.
Qed.

(** The IOU matrix, entry by entry. *)
Lemma iou_matrix_spec (HW : nat) (P T up ut : list Z) :
  iou_matrix HW (one_hot P up) (one_hot T ut) =
  map (fun a => map (iou_entry HW P T a) ut) up.
Proof.
  unfold iou_matrix, intersection_matrix, union_matrix, matmul_nt, one_minus,
    one_hot.
  rewrite !map_map, map2_map_same.
  apply map_ext; intros a.
  rewrite !map_map, map2_map_same.
  apply map_ext; intros b.
  unfold iou_entry.
  now rewrite !dot16_dot, !map_map, dot_one_hot, dot_one_minus.
Qed.

(** ** [np.argmax] *)

Lemma argmax_from_spec (l : list Q) (bi i : nat) (best : Q) (pre : list Q) :
  length pre = i -> (bi < i)%nat -> nth_error pre bi = Some best ->
  (forall k q, nth_error pre k = Some q -> (q <= best)%Q) ->
  (forall k q, (k < bi)%nat -> nth_error pre k = Some q -> (q < best)%Q) ->
  let j := argmax_from bi best i l in
  exists m, nth_error (pre ++ l) j = Some m /\
    (forall k q, nth_error (pre ++ l) k = Some q -> (q <= m)%Q) /\
    (forall k q, (k < j)%nat -> nth_error (pre ++ l) k = Some q -> (q < m)%Q).
Proof.
  revert bi i best pre; induction l as [|x l IH]; intros bi i best pre Hlen Hbi Hb Hle Hlt;
    simpl.
  - rewrite app_nil_r. exists best. auto.
  - replace (pre ++ x :: l) with ((pre ++ [x]) ++ l) by (now rewrite <- app_assoc).
    assert (Hx : nth_error (pre ++ [x]) i = Some x).
    { rewrite nth_error_app2 by lia. now rewrite Hlen, Nat.sub_diag. }
    destruct (best ?= x)%Q eqn:Ec.
    + apply Qeq_alt in Ec.
      apply IH.
      * rewrite length_app; simpl; lia.
      * lia.
      * rewrite nth_error_app1 by lia. exact Hb.
      * intros k q Hk. destruct (Nat.lt_ge_cases k i) as [Hki|Hki].
        -- rewrite nth_error_app1 in Hk by lia. eauto.
        -- rewrite nth_error_app2 in Hk by lia.
           destruct (k - length pre)%nat as [|[|n]] eqn:Ek; simpl in Hk;
             try discriminate.
           injection Hk as <-. rewrite Ec. apply Qle_refl.
      * intros k q Hk Hq. rewrite nth_error_app1 in Hq by lia. eauto.
    + apply Qlt_alt in Ec.
      apply IH.
      * rewrite length_app; simpl; lia.
      * lia.
      * exact Hx.
      * intros k q Hk. destruct (Nat.lt_ge_cases k i) as [Hki|Hki].
        -- rewrite nth_error_app1 in Hk by lia.
           apply Qle_trans with best; [eauto|]. now apply Qlt_le_weak.
        -- rewrite nth_error_app2 in Hk by lia.
           destruct (k - length pre)%nat as [|[|n]] eqn:Ek; simpl in Hk;
             try discriminate.
           injection Hk as <-. apply Qle_refl.
      * intros k q Hk Hq. rewrite nth_error_app1 in Hq by lia.
        apply Qle_lt_trans with best; eauto.
    + apply Qgt_alt in Ec.
      apply IH.
      * rewrite length_app; simpl; lia.
      * lia.
      * rewrite nth_error_app1 by lia. exact Hb.
      * intros k q Hk. destruct (Nat.lt_ge_cases k i) as [Hki|Hki].
        -- rewrite nth_error_app1 in Hk by lia. eauto.
        -- rewrite nth_error_app2 in Hk by lia.
           destruct (k - length pre)%nat as [|[|n]] eqn:Ek; simpl in Hk;
             try discriminate.
           injection Hk as <-. now apply Qlt_le_weak.
      * intros k q Hk Hq. rewrite nth_error_app1 in Hq by lia. eauto.
Qed.

(** [argmax] returns a valid position, holding a value that no entry
    exceeds and that no earlier entry reaches. *)
Lemma argmax_spec (l : list Q) (j : nat) :
  argmax l = Ok j ->
  exists m, nth_error l j = Some m /\
    (forall k q, nth_error l k = Some q -> (q <= m)%Q) /\
    (forall k q, (k < j)%nat -> nth_error l k = Some q -> (q < m)%Q).
Proof.
  destruct l as [|x l]; simpl; [discriminate|].
  intros E; injection E as <-.
  apply (argmax_from_spec l 0 1 x [x]); simpl; auto; try lia.
  intros [|[|k]] q Hq; simpl in Hq; try discriminate.
  injection Hq as <-. apply Qle_refl.
Qed.

Lemma argmax_ok (l : list Q) : l <> [] -> exists j, argmax l = Ok j.
Proof.
  destruct l; [congruence|]. intros _. simpl. eauto.
Qed.

(** ** The relabelling loop *)

Lemma assigned_choice (HW : nat) (P T : list Z) (a : Z) :
  np_unique T <> [] ->
  (j <- argmax (map (iou_entry HW P T a) (np_unique T)) ;;
   lookup (np_unique T) j) = Ok (assigned HW P T a).
Proof.
  intros Hne. unfold assigned.
  destruct (argmax_ok (map (iou_entry HW P T a) (np_unique T))) as [j Hj].
  { destruct (np_unique T); [congruence|discriminate]. }
  rewrite Hj. simpl.
  destruct (argmax_spec _ _ Hj) as (m & Hm & _).
  assert (Hlt : (j < length (np_unique T))%nat).
  { rewrite <- (length_map (iou_entry HW P T a)).
    apply nth_error_Some. congruence. }
  unfold lookup.
  destruct (nth_error (np_unique T) j) as [t|] eqn:Et.
  - f_equal. symmetry. now apply nth_error_nth.
  - apply nth_error_None in Et. lia.
Qed.

Lemma assigned_In (HW : nat) (P T : list Z) (a : Z) :
  np_unique T <> [] -> In (assigned HW P T a) (np_unique T).
Proof.
  intros Hne. pose proof (assigned_choice HW P T a Hne) as E.
  destruct (argmax (map (iou_entry HW P T a) (np_unique T))) as [j|e];
    simpl in E; [|discriminate].
  unfold lookup in E.
  destruct (nth_error (np_unique T) j) as [t|] eqn:Et; [|discriminate].
  injection E as <-. eapply nth_error_In; eauto.
Qed.

(** The loop over [enumerate] only depends on the labels: item [(i, a)]
    reads row [i] of the matrix, which is the row of label [a]. *)
Lemma relabel_loop_labels (HW : nat) (P T : list Z) (iou : list (list Q))
      (l : list Z) (s : nat) (out : ndarray) :
  np_unique T <> [] ->
  (forall i a, nth_error l i = Some a ->
     nth_error iou (s + i) = Some (map (iou_entry HW P T a) (np_unique T))) ->
  relabel_loop P T iou (combine (seq s (length l)) l) out =
  Ok (fold_left
        (fun o a => masked_assign o (map (fun x => x =? a) P) (assigned HW P T a))
        l out).
Proof.
  intros Hne. revert s out; induction l as [|a l IH]; intros s out Hrow;
    simpl; [reflexivity|].
  unfold lookup at 1.
  rewrite <- (Nat.add_0_r s) at 1.
  rewrite (Hrow 0%nat a eq_refl). cbn [bind].
  pose proof (assigned_choice HW P T a Hne) as E.
  destruct (argmax (map (iou_entry HW P T a) (np_unique T))) as [j|e];
    cbn [bind] in *; [|discriminate].
  rewrite E. cbn [bind].
  apply IH. intros i b Hi.
  replace (S s + i)%nat with (s + S i)%nat by lia.
  now apply Hrow.
Qed.

(** The loop on arrays keeps the dtype and the shape of the output and
    acts on its buffer by stores of converted values. *)
Lemma fold_masked_assign (mask : Z -> list bool) (h : Z -> Z) (l : list Z)
      (out : ndarray) :
  fold_left (fun o a => masked_assign o (mask a) (h a)) l out =
  mk_array (dtype_of out) (shape out)
    (fold_left (fun d a => assign_buffer d (mask a) (cast (dtype_of out) (h a)))
               l (data out)).
Proof.
  revert out; induction l as [|a l IH]; intros out; cbn [fold_left].
  - now destruct out.
  - rewrite IH. reflexivity.
Qed.

Lemma masked_assign_map2 (P out : list Z) (a v : Z) :
  assign_buffer out (map (fun x => x =? a) P) v =
  map2 (fun x o => if x =? a then v else o) P out.
Proof.
  unfold assign_buffer.
  revert out; induction P as [|x P IH]; intros [|o out]; simpl; auto.
  now rewrite IH.
Qed.

Lemma map2_map2_r {A B C : Type} (f : A -> B -> C) (g : A -> B -> B)
      (l : list A) (m : list B) :
  map2 f l (map2 g l m) = map2 (fun x o => f x (g x o)) l m.
Proof.
  revert m; induction l as [|x l IH]; intros [|y m]; simpl; auto.
  now rewrite IH.
Qed.

Lemma map2_snd {A B : Type} (l : list A) (m : list B) :
  length m = length l -> map2 (fun _ o => o) l m = m.
Proof.
  revert m; induction l as [|x l IH]; intros [|y m] E; simpl in *;
    try discriminate; auto.
  f_equal. apply IH. lia.
Qed.

Lemma masked_fold_pointwise (P : list Z) (h : Z -> Z) (l out : list Z) :
  length out = length P ->
  fold_left (fun o a => assign_buffer o (map (fun x => x =? a) P) (h a)) l out =
  map2 (fun x o => fold_left (fun o a => if x =? a then h a else o) l o) P out.
Proof.
  revert out; induction l as [|a l IH]; intros out Hlen; simpl.
  - symmetry. now apply map2_snd.
  - rewrite masked_assign_map2, IH.
    + apply map2_map2_r.
    + rewrite map2_length; auto.
Qed.

Lemma fold_pick (h : Z -> Z) (x : Z) (l : list Z) (o : Z) :
  fold_left (fun o a => if x =? a then h a else o) l o =
  if existsb (Z.eqb x) l then h x else o.
Proof.
  revert o; induction l as [|a l IH]; intros o; simpl; [reflexivity|].
  rewrite IH. destruct (Z.eqb_spec x a) as [->|Hne]; simpl.
  - now destruct (existsb (Z.eqb a) l).
  - reflexivity.
Qed.

Lemma map2_pick (h : Z -> Z) (l P out : list Z) :
  length out = length P ->
  (forall x, In x P -> In x l) ->
  map2 (fun x o => fold_left (fun o a => if x =? a then h a else o) l o) P out =
  map h P.
Proof.
  revert out; induction P as [|x P IH]; intros [|o out] Hlen Hin; simpl in *;
    try discriminate; auto.
  f_equal.
  - rewrite fold_pick.
    assert (E : existsb (Z.eqb x) l = true).
    { apply existsb_exists. exists x. split; [auto|apply Z.eqb_refl]. }
    now rewrite E.
  - apply IH; [lia|auto].
Qed.

(** ** What [guided_relabel] computes *)

Lemma nth_error_map_Some {A B : Type} (f : A -> B) (l : list A) (i : nat) (a : A) :
  nth_error l i = Some a -> nth_error (map f l) i = Some (f a).
Proof.
  intros E. rewrite nth_error_map, E. reflexivity.
Qed.

Lemma shape_eqb_refl (s : list nat) : shape_eqb s s = true.
Proof.
  unfold shape_eqb. destruct (list_eq_dec Nat.eq_dec s s); congruence.
Qed.

Lemma shape_eqb_neq (s t : list nat) : s <> t -> shape_eqb s t = false.
Proof.
  unfold shape_eqb. destruct (list_eq_dec Nat.eq_dec s t); congruence.
Qed.

Lemma wf_2d_length (a : ndarray) (H W : nat) :
  wf a -> shape a = [H; W] -> length (data a) = (H * W)%nat.
Proof.
  unfold wf. intros -> ->. simpl. lia.
Qed.

(** On two well-formed maps of one two-dimensional shape, the function
    returns an array of the dtype of the predicted map, in which every
    pixel holds what [written] gives for its predicted label. *)
Lemma guided_relabel_spec (A B : ndarray) (H W : nat) :
  wf A -> wf B -> shape A = [H; W] -> shape B = [H; W] ->
  guided_relabel A B =
  Ok (mk_array (dtype_of A) [H; W]
        (map (written (dtype_of A) (H * W) (data A) (data B)) (data A))).
Proof.
  intros WA WB SA SB.
  pose proof (wf_2d_length A H W WA SA) as LA.
  pose proof (wf_2d_length B H W WB SB) as LB.
  unfold guided_relabel. rewrite SA, SB, shape_eqb_refl. cbn [negb].
  unfold reshape. rewrite LA, LB, Nat.eqb_refl. cbn [bind].
  rewrite iou_matrix_spec.
  destruct (data A) as [|x P] eqn:EA.
  - cbn. unfold zeros_like. now rewrite EA, SA.
  - rewrite <- EA in *.
    assert (Hne : np_unique (data B) <> []).
    { apply np_unique_nonempty. intros E. rewrite E in LB. rewrite EA in LA.
      simpl in LA, LB. lia. }
    unfold enumerate.
    rewrite (relabel_loop_labels (H * W) (data A) (data B)); auto.
    + rewrite fold_masked_assign. cbn [zeros_like dtype_of shape data].
      rewrite SA. do 2 f_equal.
      rewrite (masked_fold_pointwise (data A)
                 (fun a => cast (dtype_of A)
                             (assigned (H * W) (data A) (data B) a)))
        by now rewrite length_map.
      apply map2_pick.
      * now rewrite length_map.
      * intros y Hy. now apply np_unique_In.
    + intros i a Hi. simpl.
      now apply (nth_error_map_Some
                   (fun a => map (iou_entry (H * W) (data A) (data B) a)
                                 (np_unique (data B)))).
Qed.

Lemma guided_relabel_total (A B : ndarray) (H W : nat) :
  wf A -> wf B -> shape A = [H; W] -> shape B = [H; W] ->
  exists out, guided_relabel A B = Ok out /\ shape out = [H; W] /\ wf out /\
    data out = map (written (dtype_of A) (H * W) (data A) (data B)) (data A).
Proof.
  intros WA WB SA SB.
  exists (mk_array (dtype_of A) [H; W]
            (map (written (dtype_of A) (H * W) (data A) (data B)) (data A))).
  split; [now apply guided_relabel_spec|].
  cbn [shape data]. repeat split.
  unfold wf in *. cbn [shape data]. rewrite length_map, WA, SA. reflexivity.
Qed.

Lemma assigned_from_truth (A B : ndarray) (H W : nat) (x : Z) :
  wf A -> wf B -> shape A = [H; W] -> shape B = [H; W] ->
  In x (data A) -> In (assigned (H * W) (data A) (data B) x) (data B).
Proof.
  intros WA WB SA SB Hx.
  apply np_unique_In, assigned_In, np_unique_nonempty.
  pose proof (wf_2d_length A H W WA SA) as LA.
  pose proof (wf_2d_length B H W WB SB) as LB.
  intros E. rewrite E in LB. destruct (data A); [destruct Hx|].
  simpl in LA, LB. lia.
Qed.

(** ** The end-to-end scenario *)

(** C6. On the two 4 x 4 maps of the scenario, [guided_relabel] returns the
    map in which every 1 became 5, every 2 became 6, every 3 became 7 and
    every 0 stayed 0. *)
Theorem scenario_relabel :
  guided_relabel scenario_predicted scenario_ground_truth =
  Ok (of_rows [[5;5;6;6]; [5;5;6;6]; [7;7;0;0]; [7;7;0;0]]) /\
  Forall (fun xy => In xy [(1, 5); (2, 6); (3, 7); (0, 0)])
         (combine (data scenario_predicted)
                  (data (of_rows [[5;5;6;6]; [5;5;6;6]; [7;7;0;0]; [7;7;0;0]]))).
Proof.
  split; [vm_compute; reflexivity|].
  cbn [combine data scenario_predicted of_rows concat app].
  repeat (apply Forall_cons; [cbn [In]; auto 10|]). apply Forall_nil.
Qed.

(** ** Output values *)

Lemma written_cast_of_truth (A B : ndarray) (H W : nat) (x : Z) :
  wf A -> wf B -> shape A = [H; W] -> shape B = [H; W] ->
  In x (data A) ->
  exists t, In t (data B) /\
            written (dtype_of A) (H * W) (data A) (data B) x =
            cast (dtype_of A) t.
Proof.
  intros WA WB SA SB Hx.
  exists (assigned (H * W) (data A) (data B) x). split; [|reflexivity].
  now apply (assigned_from_truth A B H W).
Qed.

Lemma written_from_truth (A B : ndarray) (H W : nat) (x : Z) :
  wf A -> wf B -> shape A = [H; W] -> shape B = [H; W] ->
  fits (dtype_of A) (data B) ->
  In x (data A) ->
  written (dtype_of A) (H * W) (data A) (data B) x =
  assigned (H * W) (data A) (data B) x /\
  In (written (dtype_of A) (H * W) (data A) (data B) x) (data B).
Proof.
  intros WA WB SA SB Hfit Hx.
  pose proof (assigned_from_truth A B H W x WA WB SA SB Hx) as Hin.
  unfold fits in Hfit. rewrite Forall_forall in Hfit.
  unfold written. rewrite (Hfit _ Hin). auto.
Qed.

(** C3, as the code has it. For two label maps of one shape, the output has
    the shape and the dtype of the predicted map, and each of its pixels
    holds a ground-truth value converted to that dtype; when every
    ground-truth value is representable in the dtype of the predicted map
    (as when both maps have one dtype), each pixel holds a value that
    occurs in the ground-truth map. *)
Theorem output_values_from_truth (A B : ndarray) (H W : nat) :
  wf A -> wf B -> shape A = [H; W] -> shape B = [H; W] ->
  exists out, guided_relabel A B = Ok out /\
    shape out = shape A /\
    dtype_of out = dtype_of A /\
    length (data out) = length (data A) /\
    (forall v, In v (data out) ->
       exists t, In t (data B) /\ v = cast (dtype_of A) t) /\
    (fits (dtype_of A) (data B) ->
     forall v, In v (data out) -> In v (data B)).
Proof.
  intros WA WB SA SB.
  eexists. split; [apply (guided_relabel_spec A B H W WA WB SA SB)|].
  cbn [shape dtype_of data]. repeat split.
  - congruence.
  - apply length_map.
  - intros v Hv. apply in_map_iff in Hv. destruct Hv as (x & <- & Hx).
    now apply (written_cast_of_truth A B H W).
  - intros Hfit v Hv. apply in_map_iff in Hv. destruct Hv as (x & <- & Hx).
    now apply (written_from_truth A B H W).
Qed.

Lemma output_values_from_truth_witness :
  exists out, guided_relabel scenario_predicted scenario_ground_truth = Ok out /\
    shape out = shape scenario_predicted /\
    dtype_of out = dtype_of scenario_predicted /\
    length (data out) = length (data scenario_predicted) /\
    (forall v, In v (data out) ->
       exists t, In t (data scenario_ground_truth) /\
                 v = cast (dtype_of scenario_predicted) t) /\
    (fits (dtype_of scenario_predicted) (data scenario_ground_truth) ->
     forall v, In v (data out) -> In v (data scenario_ground_truth)).
Proof.
  apply (output_values_from_truth scenario_predicted scenario_ground_truth 4 4);
    reflexivity.
Defined.

(** C3 as worded does not hold: on the uint8 prediction [[0, 1]] and the
    int64 ground truth [[300, 6]] the pixel matched with 300 holds 44 in
    the output, a value that the ground truth does not have. *)
Lemma cast_invents_label :
  wf narrow_predicted /\ wf wide_ground_truth /\
  shape narrow_predicted = shape wide_ground_truth /\
  guided_relabel narrow_predicted wide_ground_truth =
  Ok (mk_array uint8 [1%nat; 2%nat] [44; 6]) /\
  ~ (forall out, guided_relabel narrow_predicted wide_ground_truth = Ok out ->
       forall v, In v (data out) -> In v (data wide_ground_truth)).
Proof.
  split; [reflexivity|]. split; [reflexivity|]. split; [reflexivity|].
  split; [vm_compute; reflexivity|].
  intros Hc.
  specialize (Hc (mk_array uint8 [1%nat; 2%nat] [44; 6])).
  assert (E : guided_relabel narrow_predicted wide_ground_truth =
              Ok (mk_array uint8 [1%nat; 2%nat] [44; 6]))
    by (vm_compute; reflexivity).
  specialize (Hc E 44 (or_introl eq_refl)).
  cbn in Hc. intuition discriminate.
Qed.



(** ** Failure *)

(** C7. Inputs of different shapes stop at the shape assertion, and two
    well-formed two-dimensional maps of one shape yield a label map of that
    shape. *)
Theorem fails_iff_shapes_differ :
  (forall A B, shape A <> shape B -> guided_relabel A B = Raise AssertionError) /\
  (forall A B H W,
      wf A -> wf B -> shape A = [H; W] -> shape B = [H; W] ->
      exists out, guided_relabel A B = Ok out /\ shape out = [H; W] /\ wf out).
Proof.
  split.
  - intros A B Hne. unfold guided_relabel.
    now rewrite (shape_eqb_neq _ _ Hne).
  - intros A B H W WA WB SA SB.
    destruct (guided_relabel_total A B H W WA WB SA SB) as (out & E & So & Wo & _).
    eauto.
Qed.

Lemma fails_iff_shapes_differ_witness :
  guided_relabel (of_rows [[1; 2]]) (of_rows [[1]; [2]]) = Raise AssertionError /\
  exists out, guided_relabel scenario_predicted scenario_ground_truth = Ok out /\
    shape out = [4%nat; 4%nat] /\ wf out.
Proof.
  split.
  - apply (proj1 fails_iff_shapes_differ). simpl. discriminate.
  - apply (proj2 fails_iff_shapes_differ); reflexivity.
Defined.

(** ** The label 0 *)

(** C1, as the code has it. The label 0 is not set apart: the matching runs
    over every distinct value of either map, 0 included when it occurs; the
    IOU matrix has a row for the predicted label 0, and the pixels carrying
    0 are rewritten to the ground-truth label selected from that row,
    converted to the dtype of the predicted map, like those of any other
    label. *)
Theorem zero_label_takes_part (A B : ndarray) (H W : nat) :
  wf A -> wf B -> shape A = [H; W] -> shape B = [H; W] ->
  let up := np_unique (data A) in
  let ut := np_unique (data B) in
  let iou := iou_matrix (H * W) (one_hot (data A) up) (one_hot (data B) ut) in
  (forall v, In v up <-> In v (data A)) /\
  (forall v, In v ut <-> In v (data B)) /\
  (In 0 (data A) ->
   exists i, nth_error up i = Some 0 /\
             nth_error iou i =
             Some (map (iou_entry (H * W) (data A) (data B) 0) ut)) /\
  exists out, guided_relabel A B = Ok out /\
    forall k, nth_error (data A) k = Some 0 ->
              nth_error (data out) k =
              Some (cast (dtype_of A) (assigned (H * W) (data A) (data B) 0)).
Proof.
  intros WA WB SA SB up ut iou.
  split; [intros v; apply np_unique_In|].
  split; [intros v; apply np_unique_In|].
  split.
  - intros H0. apply np_unique_In in H0. fold up in H0.
    destruct (In_nth_error _ _ H0) as [i Hi].
    exists i. split; [exact Hi|].
    subst iou. rewrite iou_matrix_spec.
    apply (nth_error_map_Some
             (fun a => map (iou_entry (H * W) (data A) (data B) a) ut)), Hi.
  - destruct (guided_relabel_total A B H W WA WB SA SB) as (out & E & So & Wo & Do).
    exists out. split; [exact E|].
    intros k Hk. now rewrite Do, nth_error_map, Hk.
Qed.

Lemma zero_label_takes_part_witness :
  let A := of_rows [[0; 1]] in
  let B := of_rows [[5; 6]] in
  let up := np_unique (data A) in
  let ut := np_unique (data B) in
  let iou := iou_matrix (1 * 2) (one_hot (data A) up) (one_hot (data B) ut) in
  (forall v, In v up <-> In v (data A)) /\
  (forall v, In v ut <-> In v (data B)) /\
  (In 0 (data A) ->
   exists i, nth_error up i = Some 0 /\
             nth_error iou i =
             Some (map (iou_entry (1 * 2) (data A) (data B) 0) ut)) /\
  exists out, guided_relabel A B = Ok out /\
    forall k, nth_error (data A) k = Some 0 ->
              nth_error (data out) k =
              Some (cast (dtype_of A) (assigned (1 * 2) (data A) (data B) 0)).
Proof.
  apply (zero_label_takes_part (of_rows [[0; 1]]) (of_rows [[5; 6]]) 1 2);
    reflexivity.
Defined.

(** C1 as worded does not hold: on the 1 x 2 maps [[0, 1]] and [[5, 6]]
    the value 0 is one of the labels the IOU matrix is built over, and the
    pixel carrying 0 is rewritten to 5 by the matching instead of staying
    0. *)
Lemma zero_label_is_matched :
  let A := of_rows [[0; 1]] in
  let B := of_rows [[5; 6]] in
  In 0 (np_unique (data A)) /\
  length (iou_matrix 2 (one_hot (data A) (np_unique (data A)))
                       (one_hot (data B) (np_unique (data B)))) = 2%nat /\
  guided_relabel A B = Ok (of_rows [[5; 6]]) /\
  ~ (forall k, nth_error (data A) k = Some 0 ->
               forall out, guided_relabel A B = Ok out ->
                           nth_error (data out) k = Some 0).
Proof.
  cbv zeta. split; [left; reflexivity|].
  split; [reflexivity|]. split; [reflexivity|].
  intros Hc. specialize (Hc 0%nat eq_refl _ eq_refl). discriminate.
Qed.

(** ** Large regions: the int16 products wrap around *)

Lemma wf_one_region : wf one_region.
Proof.
  unfold wf, one_region, mk_ndarray. cbn [data shape size_of fold_right].
  rewrite repeat_length. lia.
Qed.

Lemma wf_two_bands : wf two_bands.
Proof.
  unfold wf, two_bands, mk_ndarray. cbn [data shape size_of fold_right].
  rewrite length_app, !repeat_length. lia.
Qed.

(** C4 at a concrete map. A single region of 128 x 256 = 32768 pixels,
    compared with itself: the int16 intersection count wraps to -32768 and
    the only entry of the IOU matrix is -1, outside [0,1]. *)
Theorem iou_entry_negative_on_large_region :
  let P := data one_region in
  wf one_region /\
  iou_matrix (128 * 256) (one_hot P (np_unique P)) (one_hot P (np_unique P)) =
  [[(-32768) # 32768]] /\
  ~ (0 <= (-32768) # 32768)%Q.
Proof.
  cbv zeta. split; [exact wf_one_region|].
  split; [vm_compute; reflexivity|].
  intros Hle. apply Qle_bool_iff in Hle. discriminate.
Qed.

Lemma map_two_bands (f : Z -> Z) :
  map f (data two_bands) = repeat (f 1) (128 * 256) ++ repeat (f 2) 256.
Proof.
  unfold two_bands, mk_ndarray. cbn [data]. now rewrite map_app, !map_repeat.
Qed.

(** C2 at a concrete map. On the 129 x 256 map [two_bands], relabelled
    against itself, the row of label 1 holds -1 for the pair (1,1) and 0
    for the pair (1,2); every pixel comes out as 2. *)
Theorem self_relabel_fails_on_large_region :
  wf two_bands /\
  iou_matrix (129 * 256)
    (one_hot (data two_bands) (np_unique (data two_bands)))
    (one_hot (data two_bands) (np_unique (data two_bands))) =
  [[(-32768) # 32768; 0 # 33024]; [0 # 33024; 256 # 65792]] /\
  guided_relabel two_bands two_bands =
  Ok (mk_ndarray [129%nat; 256%nat] (repeat 2 (128 * 256) ++ repeat 2 256)) /\
  guided_relabel two_bands two_bands <> Ok two_bands.
Proof.
  split; [exact wf_two_bands|].
  split; [rewrite iou_matrix_spec; vm_compute; reflexivity|].
  assert (E1 : written (dtype_of two_bands) (129 * 256)
                 (data two_bands) (data two_bands) 1 = 2)
    by (vm_compute; reflexivity).
  assert (E2 : written (dtype_of two_bands) (129 * 256)
                 (data two_bands) (data two_bands) 2 = 2)
    by (vm_compute; reflexivity).
  assert (E : guided_relabel two_bands two_bands =
              Ok (mk_ndarray [129%nat; 256%nat]
                             (repeat 2 (128 * 256) ++ repeat 2 256))).
  { rewrite (guided_relabel_spec two_bands two_bands 129 256
               wf_two_bands wf_two_bands eq_refl eq_refl).
    rewrite map_two_bands, E1, E2. reflexivity. }
  split; [exact E|].
  rewrite E. intros Heq.
  apply (f_equal (fun r => match r with
                           | Ok a => nth_error (data a) 0
                           | Raise _ => None
                           end)) in Heq.
  vm_compute in Heq. discriminate.
Qed.

(** ** [range_aware_ssim] on constant arrays *)

Lemma fold_max_const (c : Z) (l : list Z) :
  Forall (eq c) l -> fold_left Z.max l c = c.
Proof.
  induction 1 as [|x l <- _ IH]; simpl; [reflexivity|].
  now rewrite Z.max_id.
Qed.

Lemma fold_min_const (c : Z) (l : list Z) :
  Forall (eq c) l -> fold_left Z.min l c = c.
Proof.
  induction 1 as [|x l <- _ IH]; simpl; [reflexivity|].
  now rewrite Z.min_id.
Qed.

Lemma array_max_const (a : ndarray) (c : Z) :
  data a <> [] -> Forall (eq c) (data a) -> array_max a = Ok c.
Proof.
  unfold array_max. destruct (data a) as [|x t]; [congruence|].
  intros _ F. inversion F; subst. now rewrite fold_max_const.
Qed.

Lemma array_min_const (a : ndarray) (c : Z) :
  data a <> [] -> Forall (eq c) (data a) -> array_min a = Ok c.
Proof.
  unfold array_min. destruct (data a) as [|x t]; [congruence|].
  intros _ F. inversion F; subst. now rewrite fold_min_const.
Qed.

Lemma cast_0 (t : dtype) : cast t 0 = 0.
Proof. destruct t; reflexivity. Qed.

(** C10. On two arrays all of whose elements equal one constant, the data
    range is exactly 0 and [range_aware_ssim] hands this 0 to the
    structural-similarity routine as it is: its result is whatever that
    routine returns for a zero range. *)
Theorem constant_arrays_zero_range
        (score : Type) (ssim : ndarray -> ndarray -> Z -> result score)
        (a b : ndarray) (c : Z) :
  data a <> [] -> data b <> [] ->
  Forall (eq c) (data a) -> Forall (eq c) (data b) ->
  data_range a b = Ok 0 /\
  range_aware_ssim score ssim a b = ssim a b 0.
Proof.
  intros Na Nb Fa Fb.
  assert (E : data_range a b = Ok 0).
  { unfold data_range.
    rewrite (array_max_const a c), (array_max_const b c),
      (array_min_const a c), (array_min_const b c) by assumption.
    cbn [bind]. unfold py_max, py_min, scalar_sub. cbn [fst snd].
    rewrite Z.ltb_irrefl. cbn [fst snd]. now rewrite Z.sub_diag, cast_0. }
  split; [exact E|].
  unfold range_aware_ssim. now rewrite E.
Qed.

Lemma constant_arrays_zero_range_witness :
  data_range (of_rows [[3; 3]; [3; 3]]) (of_rows [[3; 3]; [3; 3]]) = Ok 0 /\
  range_aware_ssim Z (fun _ _ r => Ok r)
    (of_rows [[3; 3]; [3; 3]]) (of_rows [[3; 3]; [3; 3]]) = Ok 0.
Proof.
  apply (constant_arrays_zero_range Z (fun _ _ r => Ok r)
           (of_rows [[3; 3]; [3; 3]]) (of_rows [[3; 3]; [3; 3]]) 3);
    simpl; try discriminate; repeat constructor.
Defined.

(** ** The driver with an unrecognised dataset name *)

Lemma dispatch_unknown (name : string) :
  name <> "retina"%string -> name <> "berkeley"%string -> dispatch name = None.
Proof.
  intros H1 H2. unfold dispatch.
  destruct (String.eqb_spec name "retina"); [contradiction|].
  destruct (String.eqb_spec name "berkeley"); [contradiction|].
  reflexivity.
Qed.

Lemma iteration_unbound (w : world) (i : nat) :
  iteration w None i <> Completed /\
  (loads_ok w i = true -> consistent w i = true ->
   iteration w None i = Failed NameError (AtSegmentDiffusion i)).
Proof.
  unfold iteration.
  destruct (loads_ok w i), (consistent w i); simpl; split; auto; discriminate.
Qed.

Lemma batch_never_at_dispatch (w : world) (env : binding) (idxs : list nat) (e : exn) :
  batch w env idxs <> Failed e AtDispatch.
Proof.
  induction idxs as [|i rest IH]; simpl; [discriminate|].
  destruct (iteration w env i) eqn:Ei; [exact IH|].
  unfold iteration in Ei.
  destruct (loads_ok w i), (consistent w i), env, (segment_ok w i),
    (metrics_ok w i); simpl in Ei; congruence.
Qed.

(** C8. With a dataset name other than [retina] and [berkeley] the name
    [hparams] stays unbound; the dispatch is not where the run stops, the
    run never completes, and a run that reaches the first iteration of the
    batch stops there with a [NameError], at the first place that reads
    [hparams] (the call of [segment_diffusion]). *)
Theorem unknown_dataset_fails_at_first_use (w : world) :
  dataset_name w <> "retina"%string ->
  dataset_name w <> "berkeley"%string ->
  dispatch (dataset_name w) = None /\
  (forall e, run w <> Failed e AtDispatch) /\
  run w <> Completed /\
  (n_baselines w = n_kmeans w -> n_baselines w = n_diffusion w ->
   (0 < n_baselines w)%nat ->
   loads_ok w 0 = true -> consistent w 0 = true ->
   run w = Failed NameError (AtSegmentDiffusion 0)).
Proof.
  intros H1 H2. pose proof (dispatch_unknown _ H1 H2) as D.
  split; [exact D|]. unfold run. rewrite D. cbv zeta.
  split; [|split].
  - intros e.
    destruct (negb _); [discriminate|].
    destruct (batch w None (seq 0 (n_baselines w))) eqn:Eb; simpl;
      [discriminate|].
    rewrite <- Eb. apply batch_never_at_dispatch.
  - destruct (negb _); [discriminate|].
    destruct (batch w None (seq 0 (n_baselines w))); simpl; discriminate.
  - intros Ek Ed Hn Hl Hc.
    rewrite <- Ek, <- Ed, Nat.eqb_refl. cbn [andb negb].
    destruct (n_baselines w) as [|n]; [lia|].
    cbn [seq batch].
    now rewrite (proj2 (iteration_unbound w 0) Hl Hc).
Qed.

Lemma unknown_dataset_fails_at_first_use_witness :
  dispatch (dataset_name sample_world) = None /\
  (forall e, run sample_world <> Failed e AtDispatch) /\
  run sample_world <> Completed /\
  (n_baselines sample_world = n_kmeans sample_world ->
   n_baselines sample_world = n_diffusion sample_world ->
   (0 < n_baselines sample_world)%nat ->
   loads_ok sample_world 0 = true -> consistent sample_world 0 = true ->
   run sample_world = Failed NameError (AtSegmentDiffusion 0)).
Proof.
  apply (unknown_dataset_fails_at_first_use sample_world); simpl; discriminate.
Defined.

(** With no file to process the loop body never runs, and the first read
    of [hparams] is the test that opens the report. *)
Lemma unknown_dataset_empty_batch (w : world) :
  dataset_name w <> "retina"%string ->
  dataset_name w <> "berkeley"%string ->
  n_baselines w = 0%nat -> n_kmeans w = 0%nat -> n_diffusion w = 0%nat ->
  run w = Failed NameError AtReport.
Proof.
  intros H1 H2 Eb Ek Ed. unfold run.
  rewrite (dispatch_unknown _ H1 H2), Eb, Ek, Ed. reflexivity.
Qed.

(** ** Maps of at most 32767 pixels: the products are exact *)

Lemma count2_bounds (f : Z -> Z -> bool) (P T : list Z) :
  0 <= count2 f P T <= Z.of_nat (length P).
Proof.
  unfold count2. revert T; induction P as [|x P IH]; intros [|y T];
    cbn [combine fold_right length]; try lia.
  specialize (IH T). destruct (f (fst (x, y)) (snd (x, y))); lia.
Qed.

Lemma inter_neither_le (P T : list Z) (a b : Z) :
  inter_count P T a b + neither_count P T a b <= Z.of_nat (length P).
Proof.
  unfold inter_count, neither_count, count2.
  revert T; induction P as [|x P IH]; intros [|y T];
    cbn [combine fold_right length fst snd]; try lia.
  specialize (IH T).
  destruct (x =? a), (y =? b); cbn [andb negb]; lia.
Qed.

Lemma neither_lt (P T : list Z) (a b : Z) :
  In a P -> neither_count P T a b + 1 <= Z.of_nat (length P).
Proof.
  unfold neither_count.
  revert T; induction P as [|x P IH]; intros T Hin; [destruct Hin|].
  destruct T as [|y T].
  - unfold count2. cbn [combine fold_right length]. lia.
  - unfold count2 in *. cbn [combine fold_right length fst snd].
    destruct Hin as [->|Hin].
    + rewrite Z.eqb_refl. cbn [negb andb].
      pose proof (count2_bounds (fun x y => negb (x =? a) && negb (y =? b)) P T)
        as Hb.
      unfold count2 in Hb. lia.
    + specialize (IH T Hin).
      destruct (negb (x =? a) && negb (y =? b)); lia.
Qed.

(** The union denominator is at least 1 whatever the size of the map. *)
Lemma union_positive (HW : nat) (P T : list Z) (a b : Z) :
  length P = HW -> In a P ->
  1 <= Z.of_nat HW - wrap16 (neither_count P T a b).
Proof.
  intros LP Hin.
  pose proof (neither_lt P T a b Hin) as Hlt.
  pose proof (count2_bounds (fun x y => negb (x =? a) && negb (y =? b)) P T)
    as Hb.
  fold (neither_count P T a b) in Hb.
  destruct (Z_le_gt_dec (Z.of_nat HW) 32767) as [Hs|Hl].
  - rewrite wrap16_small; lia.
  - pose proof (wrap16_range (neither_count P T a b)). lia.
Qed.

Lemma true_divide_bounds (n d : Z) :
  0 <= n <= d -> 1 <= d -> (0 <= true_divide n d <= 1)%Q.
Proof.
  intros Hn Hd. unfold true_divide.
  assert (Hpos : (0 < inject_Z d)%Q).
  { change 0%Q with (inject_Z 0). rewrite <- Zlt_Qlt. lia. }
  split.
  - apply Qle_shift_div_l; [exact Hpos|].
    rewrite Qmult_0_l. change 0%Q with (inject_Z 0). rewrite <- Zle_Qle. lia.
  - apply Qle_shift_div_r; [exact Hpos|].
    rewrite Qmult_1_l. rewrite <- Zle_Qle. lia.
Qed.

(** Without overflow every entry of the IOU matrix lies in [0,1]. *)
Lemma iou_entry_bounds_small (HW : nat) (P T : list Z) (a b : Z) :
  length P = HW -> Z.of_nat HW <= 32767 -> In a P ->
  (0 <= iou_entry HW P T a b <= 1)%Q.
Proof.
  intros LP Hs Hin. unfold iou_entry.
  pose proof (neither_lt P T a b Hin) as Hlt.
  pose proof (inter_neither_le P T a b) as Hle.
  pose proof (count2_bounds (fun x y => (x =? a) && (y =? b)) P T) as Hi.
  pose proof (count2_bounds (fun x y => negb (x =? a) && negb (y =? b)) P T)
    as Hn.
  fold (inter_count P T a b) in Hi. fold (neither_count P T a b) in Hn.
  rewrite !wrap16_small by lia.
  apply true_divide_bounds; lia.
Qed.

Lemma iou_matrix_bounds_small (A B : ndarray) (H W : nat) :
  wf A -> wf B -> shape A = [H; W] -> shape B = [H; W] ->
  Z.of_nat (H * W) <= 32767 ->
  forall row q,
    In row (iou_matrix (H * W)
              (one_hot (data A) (np_unique (data A)))
              (one_hot (data B) (np_unique (data B)))) ->
    In q row -> (0 <= q <= 1)%Q.
Proof.
  intros WA WB SA SB Hs row q Hrow Hq.
  rewrite iou_matrix_spec in Hrow.
  apply in_map_iff in Hrow. destruct Hrow as (a & <- & Ha).
  apply in_map_iff in Hq. destruct Hq as (b & <- & Hb).
  apply iou_entry_bounds_small; auto.
  - now apply wf_2d_length.
  - now apply np_unique_In.
Qed.

Lemma inter_self_diff (P : list Z) (a b : Z) :
  a <> b -> inter_count P P a b = 0.
Proof.
  intros Hne. unfold inter_count, count2.
  induction P as [|x P IH]; cbn [combine fold_right fst snd]; [reflexivity|].
  rewrite IH.
  destruct (Z.eqb_spec x a), (Z.eqb_spec x b); cbn [andb]; congruence.
Qed.

Lemma inter_neither_self (P : list Z) (a : Z) :
  inter_count P P a a + neither_count P P a a = Z.of_nat (length P).
Proof.
  unfold inter_count, neither_count, count2.
  induction P as [|x P IH]; cbn [combine fold_right fst snd length];
    [reflexivity|].
  destruct (x =? a); cbn [andb negb]; lia.
Qed.

Lemma inter_self_pos (P : list Z) (a : Z) : In a P -> 1 <= inter_count P P a a.
Proof.
  intros Hin.
  pose proof (neither_lt P P a a Hin). pose proof (inter_neither_self P a). lia.
Qed.

Lemma iou_self_same (HW : nat) (P : list Z) (a : Z) :
  length P = HW -> Z.of_nat HW <= 32767 -> In a P ->
  (iou_entry HW P P a a == 1)%Q.
Proof.
  intros LP Hs Hin. unfold iou_entry.
  pose proof (inter_self_pos P a Hin) as Hp.
  pose proof (inter_neither_self P a) as He.
  pose proof (count2_bounds (fun x y => negb (x =? a) && negb (y =? a)) P P)
    as Hn.
  fold (neither_count P P a a) in Hn.
  rewrite !wrap16_small by lia.
  replace (Z.of_nat HW - neither_count P P a a) with (inter_count P P a a)
    by lia.
  unfold true_divide. apply Qmult_inv_r.
  intros E. unfold Qeq in E. cbn [Qnum Qden inject_Z] in E. lia.
Qed.

Lemma iou_self_diff (HW : nat) (P : list Z) (a b : Z) :
  a <> b -> (iou_entry HW P P a b == 0)%Q.
Proof.
  intros Hne. unfold iou_entry. rewrite (inter_self_diff P a b Hne).
  change (wrap16 0) with 0. unfold true_divide. apply Qmult_0_l.
Qed.

Lemma assigned_self_small (HW : nat) (P : list Z) (a : Z) :
  length P = HW -> Z.of_nat HW <= 32767 -> In a P -> assigned HW P P a = a.
Proof.
  intros LP Hs Hin. unfold assigned.
  set (row := map (iou_entry HW P P a) (np_unique P)).
  assert (Hup : In a (np_unique P)) by now apply np_unique_In.
  destruct (argmax_ok row) as [j Hj].
  { subst row. destruct (np_unique P); [destruct Hup|discriminate]. }
  rewrite Hj.
  destruct (argmax_spec row j Hj) as (m & Hm & Hle & _).
  destruct (In_nth_error _ _ Hup) as [i Hi].
  assert (H1 : (1 <= m)%Q).
  { rewrite <- (iou_self_same HW P a LP Hs Hin).
    apply (Hle i). subst row. now apply nth_error_map_Some. }
  subst row. rewrite nth_error_map in Hm.
  destruct (nth_error (np_unique P) j) as [t|] eqn:Et; [|discriminate].
  injection Hm as Hm.
  rewrite (nth_error_nth _ _ 0 Et).
  destruct (Z.eq_dec a t) as [|Hne]; [congruence|].
  exfalso. rewrite <- Hm, (iou_self_diff HW P a t Hne) in H1.
  apply Qle_bool_iff in H1. discriminate.
Qed.

(** Relabelling a map of at most 32767 pixels, whose labels lie in the
    range of its dtype, against itself returns it unchanged. *)
Lemma guided_relabel_self_small (A : ndarray) (H W : nat) :
  wf A -> in_range A -> shape A = [H; W] -> Z.of_nat (H * W) <= 32767 ->
  guided_relabel A A = Ok A.
Proof.
  intros WA RA SA Hs.
  rewrite (guided_relabel_spec A A H W WA WA SA SA). f_equal.
  destruct A as [t s d]. unfold in_range, fits in RA.
  cbn [shape data dtype_of] in *. subst s. f_equal.
  transitivity (map (fun x => x) d); [|apply map_id].
  apply map_ext_in. intros a Ha. unfold written.
  rewrite assigned_self_small; auto.
  - rewrite Forall_forall in RA. now apply RA.
  - unfold wf in WA. cbn [shape data size_of fold_right] in WA. lia.
Qed.

(** * Further properties of [guided_relabel] *)

(** ** The matrices, entry by entry *)

Lemma intersection_matrix_entries (P T up ut : list Z) :
  intersection_matrix (one_hot P up) (one_hot T ut) =
  map (fun a => map (fun b => wrap16 (inter_count P T a b)) ut) up.
Proof.
  unfold intersection_matrix, matmul_nt, one_hot.
  rewrite map_map. apply map_ext; intros a.
  rewrite map_map. apply map_ext; intros b.
  now rewrite dot16_dot, dot_one_hot.
Qed.

Lemma union_matrix_entries (HW : nat) (P T up ut : list Z) :
  union_matrix HW (one_hot P up) (one_hot T ut) =
  map (fun a => map (fun b => Z.of_nat HW - wrap16 (neither_count P T a b)) ut)
      up.
Proof.
  unfold union_matrix, matmul_nt, one_minus, one_hot.
  rewrite !map_map. apply map_ext; intros a.
  rewrite !map_map. apply map_ext; intros b.
  now rewrite dot16_dot, ?map_map, dot_one_minus.
Qed.

(** X1. Whatever the size of the two maps, each entry of the intersection
    matrix is the number of pixels carrying both labels, reduced to int16,
    and each entry of the union matrix is [H * W] minus the int16 reduction
    of the number of pixels carrying neither label. *)
Theorem matrices_are_wrapped_counts (A B : ndarray) (H W : nat) :
  let P := data A in
  let T := data B in
  intersection_matrix (one_hot P (np_unique P)) (one_hot T (np_unique T)) =
  map (fun a => map (fun b => wrap16 (inter_count P T a b)) (np_unique T))
      (np_unique P) /\
  union_matrix (H * W) (one_hot P (np_unique P)) (one_hot T (np_unique T)) =
  map (fun a =>
         map (fun b => Z.of_nat (H * W) - wrap16 (neither_count P T a b))
             (np_unique T))
      (np_unique P).
Proof.
  intros P T. split.
  - apply intersection_matrix_entries.
  - apply union_matrix_entries.
Qed.

(** Inclusion and exclusion on two maps of one length. *)
Lemma neither_inclusion_exclusion (P T : list Z) (a b : Z) :
  length P = length T ->
  neither_count P T a b =
  Z.of_nat (length P) - area P a - area T b + inter_count P T a b.
Proof.
  unfold neither_count, inter_count, count2, area.
  revert T; induction P as [|x P IH]; intros [|y T] E; simpl in E;
    try discriminate; [reflexivity|].
  injection E as E. specialize (IH T E).
  cbn [combine fold_right fst snd length count_occ].
  rewrite IH.
  destruct (Z.eq_dec x a) as [->|Hx], (Z.eq_dec y b) as [->|Hy];
    rewrite ?Z.eqb_refl;
    repeat match goal with
           | Hn : ?u <> ?v |- _ =>
               rewrite (proj2 (Z.eqb_neq u v) Hn); clear Hn
           end;
    cbn [andb negb]; lia.
Qed.

Lemma area_bounds (P : list Z) (a : Z) : 0 <= area P a <= Z.of_nat (length P).
Proof.
  unfold area. pose proof (count_occ_bound Z.eq_dec a P). lia.
Qed.

(** X2. On maps of at most 32767 pixels nothing wraps: the intersection
    matrix holds the number of pixels carrying both labels and the union
    matrix holds area + area - intersection. *)
Theorem matrices_exact_small (A B : ndarray) (H W : nat) :
  wf A -> wf B -> shape A = [H; W] -> shape B = [H; W] ->
  Z.of_nat (H * W) <= 32767 ->
  let P := data A in
  let T := data B in
  intersection_matrix (one_hot P (np_unique P)) (one_hot T (np_unique T)) =
  map (fun a => map (fun b => inter_count P T a b) (np_unique T)) (np_unique P) /\
  union_matrix (H * W) (one_hot P (np_unique P)) (one_hot T (np_unique T)) =
  map (fun a =>
         map (fun b => area P a + area T b - inter_count P T a b) (np_unique T))
      (np_unique P).
Proof.
  intros WA WB SA SB Hs P T.
  pose proof (wf_2d_length A H W WA SA) as LA.
  pose proof (wf_2d_length B H W WB SB) as LB.
  fold P in LA. fold T in LB.
  split.
  - rewrite intersection_matrix_entries.
    apply map_ext; intros a. apply map_ext; intros b.
    pose proof (count2_bounds (fun x y => (x =? a) && (y =? b)) P T) as Hb.
    fold (inter_count P T a b) in Hb.
    apply wrap16_small. lia.
  - rewrite union_matrix_entries.
    apply map_ext; intros a. apply map_ext; intros b.
    pose proof (count2_bounds (fun x y => negb (x =? a) && negb (y =? b)) P T)
      as Hb.
    fold (neither_count P T a b) in Hb.
    rewrite wrap16_small by lia.
    rewrite neither_inclusion_exclusion by congruence. lia.
Qed.

Lemma matrices_exact_small_witness :
  let P := data scenario_predicted in
  let T := data scenario_ground_truth in
  intersection_matrix (one_hot P (np_unique P)) (one_hot T (np_unique T)) =
  map (fun a => map (fun b => inter_count P T a b) (np_unique T)) (np_unique P) /\
  union_matrix (4 * 4) (one_hot P (np_unique P)) (one_hot T (np_unique T)) =
  map (fun a =>
         map (fun b => area P a + area T b - inter_count P T a b) (np_unique T))
      (np_unique P).
Proof.
  apply (matrices_exact_small scenario_predicted scenario_ground_truth 4 4);
    try reflexivity.
  simpl. lia.
Defined.

(** ** The selection rule *)





(** Beyond 32767 pixels the rule of C5 is not followed either: on
    [two_bands], relabelled against itself, label 1 has IOU 1 with label 1
    and IOU 0 with label 2, and its pixels are rewritten to 2. *)
Lemma overflow_breaks_selection :
  let P := data two_bands in
  (true_iou P P 1 1 == 1)%Q /\ (true_iou P P 1 2 == 0)%Q /\
  written (dtype_of two_bands) (129 * 256) P P 1 = 2.
Proof.
  cbv zeta. split; [vm_compute; reflexivity|].
  split; vm_compute; reflexivity.
Qed.

(** ** Bounds *)

(** X3. On maps of at most 32767 pixels every entry of the IOU matrix lies
    between 0 and 1. *)
Theorem iou_in_unit_interval_small (A B : ndarray) (H W : nat) :
  wf A -> wf B -> shape A = [H; W] -> shape B = [H; W] ->
  Z.of_nat (H * W) <= 32767 ->
  Forall (Forall (fun q => 0 <= q <= 1)%Q)
         (iou_matrix (H * W)
            (one_hot (data A) (np_unique (data A)))
            (one_hot (data B) (np_unique (data B)))).
Proof.
  intros WA WB SA SB Hs.
  apply Forall_forall; intros row Hrow.
  apply Forall_forall; intros q Hq.
  now apply (iou_matrix_bounds_small A B H W WA WB SA SB Hs row q).
Qed.

Lemma iou_in_unit_interval_small_witness :
  Forall (Forall (fun q => 0 <= q <= 1)%Q)
         (iou_matrix (4 * 4)
            (one_hot (data scenario_predicted)
                     (np_unique (data scenario_predicted)))
            (one_hot (data scenario_ground_truth)
                     (np_unique (data scenario_ground_truth)))).
Proof.
  apply (iou_in_unit_interval_small scenario_predicted scenario_ground_truth 4 4);
    try reflexivity.
  simpl. lia.
Defined.

(** X4. Whatever the size of the maps, every entry of the union matrix is
    at least 1: the division that yields the IOU matrix never divides by
    zero. *)
Theorem union_never_zero (A B : ndarray) (H W : nat) :
  wf A -> wf B -> shape A = [H; W] -> shape B = [H; W] ->
  Forall (Forall (fun u => 1 <= u))
         (union_matrix (H * W)
            (one_hot (data A) (np_unique (data A)))
            (one_hot (data B) (np_unique (data B)))).
Proof.
  intros WA WB SA SB.
  rewrite union_matrix_entries.
  apply Forall_forall; intros row Hrow.
  apply in_map_iff in Hrow. destruct Hrow as (a & <- & Ha).
  apply Forall_forall; intros u Hu.
  apply in_map_iff in Hu. destruct Hu as (b & <- & Hb).
  apply union_positive.
  - now apply wf_2d_length.
  - now apply np_unique_In.
Qed.

Lemma union_never_zero_witness :
  Forall (Forall (fun u => 1 <= u))
         (union_matrix (128 * 256)
            (one_hot (data one_region) (np_unique (data one_region)))
            (one_hot (data one_region) (np_unique (data one_region)))).
Proof.
  apply (union_never_zero one_region one_region 128 256);
    try exact wf_one_region; reflexivity.
Defined.

(** ** The names of the predicted labels do not matter *)

Lemma count2_rename (g : Z -> Z) (P T : list Z) (f f' : Z -> Z -> bool) :
  (forall x y, In x P -> f' (g x) y = f x y) ->
  count2 f' (map g P) T = count2 f P T.
Proof.
  unfold count2.
  revert T; induction P as [|x P IH]; intros T Hf; [reflexivity|].
  destruct T as [|y T]; [reflexivity|].
  cbn [map combine fold_right fst snd].
  rewrite IH by (intros; apply Hf; now right).
  rewrite Hf by now left. reflexivity.
Qed.

Lemma eqb_rename (g : Z -> Z) (P : list Z) (a x : Z) :
  (forall u v, In u P -> In v P -> g u = g v -> u = v) ->
  In a P -> In x P -> (g x =? g a) = (x =? a).
Proof.
  intros Hg Ha Hx.
  destruct (Z.eqb_spec x a) as [->|Hne]; [apply Z.eqb_refl|].
  apply Z.eqb_neq. intros E. apply Hne. now apply Hg.
Qed.

Lemma iou_entry_rename (HW : nat) (g : Z -> Z) (P T : list Z) (a b : Z) :
  (forall u v, In u P -> In v P -> g u = g v -> u = v) ->
  In a P ->
  iou_entry HW (map g P) T (g a) b = iou_entry HW P T a b.
Proof.
  intros Hg Ha. unfold iou_entry, inter_count, neither_count.
  rewrite (count2_rename g P T (fun x y => (x =? a) && (y =? b))),
          (count2_rename g P T (fun x y => negb (x =? a) && negb (y =? b)));
    [reflexivity| |];
    intros x y Hx; now rewrite (eqb_rename g P a x Hg Ha Hx).
Qed.

Lemma assigned_rename (HW : nat) (g : Z -> Z) (P T : list Z) (a : Z) :
  (forall u v, In u P -> In v P -> g u = g v -> u = v) ->
  In a P ->
  assigned HW (map g P) T (g a) = assigned HW P T a.
Proof.
  intros Hg Ha. unfold assigned.
  rewrite (map_ext (iou_entry HW (map g P) T (g a)) (iou_entry HW P T a));
    [reflexivity|].
  intros b. now apply iou_entry_rename.
Qed.

(** X5. Renaming the labels of the predicted map by a function that keeps
    the labels present apart does not change the result: the output only
    depends on the regions of the predicted map, not on their names. *)
Theorem relabel_ignores_predicted_names (A B : ndarray) (H W : nat) (g : Z -> Z) :
  wf A -> wf B -> shape A = [H; W] -> shape B = [H; W] ->
  (forall u v, In u (data A) -> In v (data A) -> g u = g v -> u = v) ->
  guided_relabel (rename g A) B = guided_relabel A B.
Proof.
  intros WA WB SA SB Hg.
  assert (WR : wf (rename g A)).
  { unfold wf, rename in *. cbn [shape data]. now rewrite length_map. }
  rewrite (guided_relabel_spec (rename g A) B H W WR WB SA SB),
          (guided_relabel_spec A B H W WA WB SA SB).
  do 2 f_equal. unfold rename. cbn [data dtype_of].
  rewrite map_map. apply map_ext_in. intros a Ha.
  unfold written. f_equal. now apply assigned_rename.
Qed.

Lemma relabel_ignores_predicted_names_witness :
  guided_relabel (rename (fun x => 10 - x) scenario_predicted)
                 scenario_ground_truth =
  guided_relabel scenario_predicted scenario_ground_truth.
Proof.
  apply (relabel_ignores_predicted_names
           scenario_predicted scenario_ground_truth 4 4 (fun x => 10 - x));
    try reflexivity.
  intros u v _ _ E. lia.
Defined.

(** ** Predicted regions that lie inside ground-truth regions *)

Lemma inter_refine_other (f : Z -> Z) (P : list Z) (a b : Z) :
  b <> f a -> inter_count P (map f P) a b = 0.
Proof.
  intros Hne. unfold inter_count, count2.
  induction P as [|x P IH]; cbn [map combine fold_right fst snd];
    [reflexivity|].
  rewrite IH.
  destruct (Z.eqb_spec x a) as [->|]; cbn [andb]; [|reflexivity].
  destruct (Z.eqb_spec (f a) b); [congruence|reflexivity].
Qed.

Lemma inter_refine_pos (f : Z -> Z) (P : list Z) (a : Z) :
  In a P -> 1 <= inter_count P (map f P) a (f a).
Proof.
  unfold inter_count, count2.
  induction P as [|x P IH]; intros Hin; [destruct Hin|].
  cbn [map combine fold_right fst snd].
  pose proof (count2_bounds (fun x y => (x =? a) && (y =? f a)) P (map f P))
    as Hb.
  unfold count2 in Hb.
  destruct Hin as [->|Hin].
  - rewrite !Z.eqb_refl. cbn [andb]. lia.
  - specialize (IH Hin). destruct ((x =? a) && (f x =? f a)); lia.
Qed.

Lemma true_divide_pos (n d : Z) : 1 <= n -> 1 <= d -> (0 < true_divide n d)%Q.
Proof.
  intros Hn Hd. unfold true_divide.
  apply Qlt_shift_div_l.
  - change 0%Q with (inject_Z 0). rewrite <- Zlt_Qlt. lia.
  - rewrite Qmult_0_l. change 0%Q with (inject_Z 0). rewrite <- Zlt_Qlt. lia.
Qed.

Lemma assigned_refine_small (HW : nat) (f : Z -> Z) (P : list Z) (a : Z) :
  length P = HW -> Z.of_nat HW <= 32767 -> In a P ->
  assigned HW P (map f P) a = f a.
Proof.
  intros LP Hs Hin. unfold assigned.
  set (T := map f P).
  set (row := map (iou_entry HW P T a) (np_unique T)).
  assert (Hut : In (f a) (np_unique T)).
  { apply np_unique_In. subst T. now apply in_map. }
  destruct (argmax_ok row) as [j Hj].
  { subst row. destruct (np_unique T); [destruct Hut|discriminate]. }
  rewrite Hj.
  destruct (argmax_spec row j Hj) as (m & Hm & Hle & _).
  destruct (In_nth_error _ _ Hut) as [i Hi].
  assert (Hpos : (0 < m)%Q).
  { apply Qlt_le_trans with (iou_entry HW P T a (f a)).
    - unfold iou_entry.
      pose proof (inter_refine_pos f P a Hin) as H1. fold T in H1.
      pose proof (count2_bounds (fun x y => (x =? a) && (y =? f a)) P T) as H2.
      fold (inter_count P T a (f a)) in H2.
      rewrite (wrap16_small (inter_count P T a (f a))) by lia.
      apply true_divide_pos; [exact H1|].
      now apply union_positive.
    - apply (Hle i). subst row. now apply nth_error_map_Some. }
  subst row. rewrite nth_error_map in Hm.
  destruct (nth_error (np_unique T) j) as [t|] eqn:Et; [|discriminate].
  injection Hm as Hm.
  rewrite (nth_error_nth _ _ 0 Et).
  destruct (Z.eq_dec t (f a)) as [|Hne]; [assumption|].
  exfalso. rewrite <- Hm in Hpos. unfold iou_entry in Hpos.
  subst T. rewrite (inter_refine_other f P a t Hne) in Hpos.
  change (wrap16 0) with 0 in Hpos.
  assert (E0 : forall d, (true_divide 0 d == 0)%Q)
    by (intros d; unfold true_divide; apply Qmult_0_l).
  rewrite E0 in Hpos. now apply Qlt_irrefl in Hpos.
Qed.

(** X6. On maps of at most 32767 pixels, when every predicted region lies
    inside one ground-truth region (the ground-truth label of a pixel is a
    function of its predicted label) and the ground-truth labels are
    representable in the dtype of the predicted map, the result holds the
    ground-truth labels pixel for pixel, in the dtype of the predicted map:
    an over-segmentation, and in particular a mere renaming of the ground
    truth, is repaired exactly. *)
Theorem refinement_is_repaired (A B : ndarray) (H W : nat) (f : Z -> Z) :
  wf A -> wf B -> shape A = [H; W] -> shape B = [H; W] ->
  Z.of_nat (H * W) <= 32767 ->
  fits (dtype_of A) (data B) ->
  data B = map f (data A) ->
  guided_relabel A B = Ok (mk_array (dtype_of A) (shape B) (data B)).
Proof.
  intros WA WB SA SB Hs Hfit Hf.
  rewrite (guided_relabel_spec A B H W WA WB SA SB), SB. do 2 f_equal.
  rewrite Hf at 2. apply map_ext_in. intros a Ha.
  destruct (written_from_truth A B H W a WA WB SA SB Hfit Ha) as [-> _].
  rewrite Hf. apply assigned_refine_small; auto.
  now apply wf_2d_length.
Qed.

Lemma refinement_is_repaired_witness :
  guided_relabel (mk_array uint8 [2%nat; 2%nat] [1; 2; 3; 3])
                 (of_rows [[7; 7]; [9; 9]]) =
  Ok (mk_array uint8 [2%nat; 2%nat] [7; 7; 9; 9]).
Proof.
  apply (refinement_is_repaired
           (mk_array uint8 [2%nat; 2%nat] [1; 2; 3; 3])
           (of_rows [[7; 7]; [9; 9]]) 2 2
           (fun x => if x <=? 2 then 7 else 9));
    try reflexivity.
  - simpl. lia.
  - repeat constructor.
Defined.

(** ** Number of regions *)

Lemma np_unique_map_incl (f : Z -> Z) (l : list Z) :
  incl (np_unique (map f l)) (map f (np_unique l)).
Proof.
  intros y Hy. apply (proj1 (np_unique_In _ _)) in Hy. apply in_map_iff in Hy.
  destruct Hy as (x & <- & Hx). apply in_map. now apply np_unique_In.
Qed.

(** X7. The output never has more distinct labels than the predicted map,
    nor more than the ground-truth map: regions are merged or renamed,
    never created. *)
Theorem labels_never_multiply (A B : ndarray) (H W : nat) :
  wf A -> wf B -> shape A = [H; W] -> shape B = [H; W] ->
  exists out, guided_relabel A B = Ok out /\
    (length (np_unique (data out)) <= length (np_unique (data A)))%nat /\
    (length (np_unique (data out)) <= length (np_unique (data B)))%nat.
Proof.
  intros WA WB SA SB.
  destruct (guided_relabel_total A B H W WA WB SA SB) as (out & E & So & Wo & Do).
  exists out. split; [exact E|]. split.
  - rewrite Do.
    rewrite <- (length_map (written (dtype_of A) (H * W) (data A) (data B))
                           (np_unique (data A))).
    apply NoDup_incl_length; [apply np_unique_NoDup|apply np_unique_map_incl].
  - rewrite <- (length_map (cast (dtype_of A)) (np_unique (data B))).
    apply NoDup_incl_length; [apply np_unique_NoDup|].
    intros y Hy. apply (proj1 (np_unique_In _ _)) in Hy.
    rewrite Do in Hy. apply in_map_iff in Hy. destruct Hy as (x & <- & Hx).
    unfold written. apply in_map, np_unique_In.
    now apply (assigned_from_truth A B H W).
Qed.

Lemma labels_never_multiply_witness :
  exists out, guided_relabel scenario_predicted scenario_ground_truth = Ok out /\
    (length (np_unique (data out)) <=
     length (np_unique (data scenario_predicted)))%nat /\
    (length (np_unique (data out)) <=
     length (np_unique (data scenario_ground_truth)))%nat.
Proof.
  apply (labels_never_multiply scenario_predicted scenario_ground_truth 4 4);
    reflexivity.
Defined.

(** ** Edge cases *)

(** X8. Two arrays of one shape that is not two-dimensional pass the
    assertion and stop at the unpacking [H, W = label_pred.shape] with a
    [ValueError]. *)
Theorem non_2d_raises_value_error (A B : ndarray) :
  shape A = shape B -> length (shape A) <> 2%nat ->
  guided_relabel A B = Raise ValueError.
Proof.
  intros E Hn. unfold guided_relabel.
  rewrite <- E, shape_eqb_refl. cbn [negb].
  destruct (shape A) as [|h [|w [|d s]]]; try reflexivity.
  simpl in Hn. congruence.
Qed.

Lemma non_2d_raises_value_error_witness :
  guided_relabel (mk_ndarray [3%nat] [1; 2; 3]) (mk_ndarray [3%nat] [1; 2; 3]) =
  Raise ValueError.
Proof.
  apply (non_2d_raises_value_error
           (mk_ndarray [3%nat] [1; 2; 3]) (mk_ndarray [3%nat] [1; 2; 3]));
    simpl; [reflexivity|discriminate].
Defined.

(** X9. Two empty maps of one two-dimensional shape are accepted: the loop
    body never runs and the empty predicted map comes back. *)
Theorem empty_maps_are_returned (A B : ndarray) (H W : nat) :
  wf A -> wf B -> shape A = [H; W] -> shape B = [H; W] ->
  (H * W = 0)%nat ->
  guided_relabel A B = Ok A.
Proof.
  intros WA WB SA SB E0.
  rewrite (guided_relabel_spec A B H W WA WB SA SB). f_equal.
  pose proof (wf_2d_length A H W WA SA) as LA.
  destruct A as [t s d]. cbn [shape data dtype_of] in *. subst s. f_equal.
  destruct d; [reflexivity|]. simpl in LA. lia.
Qed.

Lemma empty_maps_are_returned_witness :
  guided_relabel (mk_ndarray [0%nat; 5%nat] []) (mk_ndarray [0%nat; 5%nat] []) =
  Ok (mk_ndarray [0%nat; 5%nat] []).
Proof.
  apply (empty_maps_are_returned
           (mk_ndarray [0%nat; 5%nat] []) (mk_ndarray [0%nat; 5%nat] []) 0 5);
    reflexivity.
Defined.

(** * Further properties of [range_aware_ssim] *)

Lemma fold_max_spec (l : list Z) (x : Z) :
  let m := fold_left Z.max l x in
  In m (x :: l) /\ forall y, In y (x :: l) -> y <= m.
Proof.
  revert x; induction l as [|z l IH]; intros x; cbn [fold_left].
  - split; [now left|]. intros y [<-|[]]. lia.
  - destruct (IH (Z.max x z)) as [Hin Hub]. split.
    + destruct Hin as [E|Hin]; [|right; now right].
      rewrite <- E. destruct (Z.max_spec x z) as [[_ ->]|[_ ->]];
        [right; now left|now left].
    + pose proof (Hub (Z.max x z) (or_introl eq_refl)) as H0.
      intros y [E|[E|Hy]]; [lia|lia|].
      apply Hub. now right.
Qed.

Lemma fold_min_spec (l : list Z) (x : Z) :
  let m := fold_left Z.min l x in
  In m (x :: l) /\ forall y, In y (x :: l) -> m <= y.
Proof.
  revert x; induction l as [|z l IH]; intros x; cbn [fold_left].
  - split; [now left|]. intros y [<-|[]]. lia.
  - destruct (IH (Z.min x z)) as [Hin Hlb]. split.
    + destruct Hin as [E|Hin]; [|right; now right].
      rewrite <- E. destruct (Z.min_spec x z) as [[_ ->]|[_ ->]];
        [now left|right; now left].
    + pose proof (Hlb (Z.min x z) (or_introl eq_refl)) as H0.
      intros y [E|[E|Hy]]; [lia|lia|].
      apply Hlb. now right.
Qed.

Lemma array_max_spec (a : ndarray) (m : Z) :
  array_max a = Ok m -> In m (data a) /\ forall y, In y (data a) -> y <= m.
Proof.
  unfold array_max. destruct (data a) as [|x t]; [discriminate|].
  intros E; injection E as <-. apply fold_max_spec.
Qed.

Lemma array_min_spec (a : ndarray) (m : Z) :
  array_min a = Ok m -> In m (data a) /\ forall y, In y (data a) -> m <= y.
Proof.
  unfold array_min. destruct (data a) as [|x t]; [discriminate|].
  intros E; injection E as <-. apply fold_min_spec.
Qed.

Lemma array_max_ok (a : ndarray) : data a <> [] -> exists m, array_max a = Ok m.
Proof.
  unfold array_max. destruct (data a); [congruence|eauto].
Qed.

Lemma array_min_ok (a : ndarray) : data a <> [] -> exists m, array_min a = Ok m.
Proof.
  unfold array_min. destruct (data a); [congruence|eauto].
Qed.

Lemma py_max_fst (x y : scalar) : fst (py_max x y) = Z.max (fst x) (fst y).
Proof.
  unfold py_max. destruct (Z.ltb_spec (fst x) (fst y)); lia.
Qed.

Lemma py_min_fst (x y : scalar) : fst (py_min x y) = Z.min (fst x) (fst y).
Proof.
  unfold py_min. destruct (Z.ltb_spec (fst y) (fst x)); lia.
Qed.

Lemma py_max_same_dtype (x y : Z) (t : dtype) : snd (py_max (x, t) (y, t)) = t.
Proof.
  unfold py_max. cbn [fst]. now destruct (x <? y).
Qed.

Lemma py_min_same_dtype (x y : Z) (t : dtype) : snd (py_min (x, t) (y, t)) = t.
Proof.
  unfold py_min. cbn [fst]. now destruct (y <? x).
Qed.

Lemma promote_same (t : dtype) : promote t t = t.
Proof. destruct t; reflexivity. Qed.

Lemma data_range_inv (a b : ndarray) (r : Z) :
  data_range a b = Ok r ->
  exists a_max b_max a_min b_min,
    array_max a = Ok a_max /\ array_max b = Ok b_max /\
    array_min a = Ok a_min /\ array_min b = Ok b_min /\
    r = fst (scalar_sub (py_max (a_max, dtype_of a) (b_max, dtype_of b))
                        (py_min (a_min, dtype_of a) (b_min, dtype_of b))).
Proof.
  unfold data_range.
  destruct (array_max a) as [a_max|]; cbn [bind]; [|discriminate].
  destruct (array_max b) as [b_max|]; cbn [bind]; [|discriminate].
  destruct (array_min a) as [a_min|]; cbn [bind]; [|discriminate].
  destruct (array_min b) as [b_min|]; cbn [bind]; [|discriminate].
  intros E; injection E as <-. exists a_max, b_max, a_min, b_min. auto.
Qed.

(** The extremes of two non-empty arrays taken together. *)
Lemma extremes_of_both (a b : ndarray) (a_max b_max a_min b_min : Z) :
  array_max a = Ok a_max -> array_max b = Ok b_max ->
  array_min a = Ok a_min -> array_min b = Ok b_min ->
  In (Z.max a_max b_max) (data a ++ data b) /\
  In (Z.min a_min b_min) (data a ++ data b) /\
  forall x, In x (data a ++ data b) ->
            Z.min a_min b_min <= x <= Z.max a_max b_max.
Proof.
  intros Ea Eb Fa Fb.
  destruct (array_max_spec a _ Ea) as [Ia Ua].
  destruct (array_max_spec b _ Eb) as [Ib Ub].
  destruct (array_min_spec a _ Fa) as [Ja La].
  destruct (array_min_spec b _ Fb) as [Jb Lb].
  repeat split.
  - apply in_or_app.
    destruct (Z.max_spec a_max b_max) as [[_ ->]|[_ ->]]; auto.
  - apply in_or_app.
    destruct (Z.min_spec a_min b_min) as [[_ ->]|[_ ->]]; auto.
  - apply in_app_or in H. destruct H as [Hx|Hx];
      [specialize (La x Hx)|specialize (Lb x Hx)]; lia.
  - apply in_app_or in H. destruct H as [Hx|Hx];
      [specialize (Ua x Hx)|specialize (Ub x Hx)]; lia.
Qed.



(** X11. When one of the two arrays is empty, [range_aware_ssim] raises
    [ValueError] while computing the range and the similarity routine is
    not reached; otherwise the range is computed and handed to the
    similarity routine, whose result is returned. *)
Theorem empty_array_stops_before_ssim
        (score : Type) (ssim : ndarray -> ndarray -> Z -> result score)
        (a b : ndarray) :
  (data a = [] \/ data b = [] ->
   range_aware_ssim score ssim a b = Raise ValueError) /\
  (data a <> [] -> data b <> [] ->
   exists r, data_range a b = Ok r /\
             range_aware_ssim score ssim a b = ssim a b r).
Proof.
  split.
  - intros He. unfold range_aware_ssim, data_range, array_max, array_min.
    destruct (data a) as [|x t]; [reflexivity|].
    destruct (data b) as [|y u]; [reflexivity|].
    destruct He; discriminate.
  - intros Na Nb.
    destruct (array_max_ok a Na) as [a_max Ea].
    destruct (array_max_ok b Nb) as [b_max Eb].
    destruct (array_min_ok a Na) as [a_min Fa].
    destruct (array_min_ok b Nb) as [b_min Fb].
    eexists. split.
    + unfold data_range. rewrite Ea, Eb, Fa, Fb. cbn [bind]. reflexivity.
    + unfold range_aware_ssim, data_range. rewrite Ea, Eb, Fa, Fb.
      reflexivity.
Qed.

Lemma empty_array_stops_before_ssim_witness :
  range_aware_ssim Z (fun _ _ r => Ok r)
    (mk_ndarray [0%nat; 2%nat] []) (of_rows [[1; 2]]) = Raise ValueError /\
  exists r, data_range (of_rows [[1; 4]]) (of_rows [[2; 9]]) = Ok r /\
            range_aware_ssim Z (fun _ _ r => Ok r)
              (of_rows [[1; 4]]) (of_rows [[2; 9]]) = Ok r.
Proof.
  split.
  - apply (proj1 (empty_array_stops_before_ssim Z (fun _ _ r => Ok r)
                    (mk_ndarray [0%nat; 2%nat] []) (of_rows [[1; 2]]))).
    left. reflexivity.
  - apply (proj2 (empty_array_stops_before_ssim Z (fun _ _ r => Ok r)
                    (of_rows [[1; 4]]) (of_rows [[2; 9]])));
      simpl; discriminate.
Defined.

(** X12. For two arrays of one dtype the data range does not depend on the
    order of the arrays, so [range_aware_ssim] is symmetric on them
    whenever the underlying similarity routine is. *)
Theorem range_aware_ssim_symmetric
        (score : Type) (ssim : ndarray -> ndarray -> Z -> result score)
        (a b : ndarray) :
  dtype_of a = dtype_of b ->
  (forall x y r, ssim x y r = ssim y x r) ->
  data_range a b = data_range b a /\
  range_aware_ssim score ssim a b = range_aware_ssim score ssim b a.
Proof.
  intros Ht Hs.
  assert (E : data_range a b = data_range b a).
  { unfold data_range, array_max, array_min. rewrite Ht.
    destruct (data a) as [|x t], (data b) as [|y u]; cbn [bind];
      try reflexivity.
    unfold scalar_sub.
    rewrite !py_max_same_dtype, !py_min_same_dtype, !py_max_fst, !py_min_fst.
    cbn [fst]. now rewrite Z.max_comm, Z.min_comm. }
  split; [exact E|].
  unfold range_aware_ssim. rewrite E.
  destruct (data_range b a); cbn [bind]; [apply Hs|reflexivity].
Qed.

Lemma range_aware_ssim_symmetric_witness :
  data_range (of_rows [[1; 4]]) (of_rows [[2; 9]]) =
  data_range (of_rows [[2; 9]]) (of_rows [[1; 4]]) /\
  range_aware_ssim Z (fun _ _ r => Ok r) (of_rows [[1; 4]]) (of_rows [[2; 9]]) =
  range_aware_ssim Z (fun _ _ r => Ok r) (of_rows [[2; 9]]) (of_rows [[1; 4]]).
Proof.
  apply (range_aware_ssim_symmetric Z (fun _ _ r => Ok r));
    reflexivity.
Defined.

(** A spread between two values, each in the range of its dtype, is only
    converted to 0 when it is 0. *)
Lemma cast_spread_zero (s t : dtype) (x y : Z) :
  cast s x = x -> cast t y = y -> y <= x ->
  cast (promote s t) (x - y) = 0 -> x = y.
Proof.
  destruct s, t; unfold cast; cbn; intros Hx Hy Hle H0;
    Z.div_mod_to_equations; lia.
Qed.

Lemma py_max_in_range (a b : ndarray) (a_max b_max : Z) :
  in_range a -> in_range b -> In a_max (data a) -> In b_max (data b) ->
  let m := py_max (a_max, dtype_of a) (b_max, dtype_of b) in
  cast (snd m) (fst m) = fst m.
Proof.
  unfold in_range, fits. intros Ra Rb Ia Ib. cbv zeta.
  rewrite Forall_forall in Ra, Rb. unfold py_max. cbn [fst].
  destruct (a_max <? b_max); cbn [fst snd]; auto.
Qed.

Lemma py_min_in_range (a b : ndarray) (a_min b_min : Z) :
  in_range a -> in_range b -> In a_min (data a) -> In b_min (data b) ->
  let m := py_min (a_min, dtype_of a) (b_min, dtype_of b) in
  cast (snd m) (fst m) = fst m.
Proof.
  unfold in_range, fits. intros Ra Rb Ia Ib. cbv zeta.
  rewrite Forall_forall in Ra, Rb. unfold py_min. cbn [fst].
  destruct (b_min <? a_min); cbn [fst snd]; auto.
Qed.

(** X13. A zero data range only arises from constant input: if the range
    of two arrays, whose elements lie in the ranges of their dtypes, is 0,
    all elements of both arrays are one and the same value. *)
Theorem zero_range_only_for_constants (a b : ndarray) :
  in_range a -> in_range b ->
  data_range a b = Ok 0 ->
  exists c, Forall (eq c) (data a) /\ Forall (eq c) (data b) /\
            data a <> [] /\ data b <> [].
Proof.
  intros Ra Rb E.
  destruct (data_range_inv a b 0 E)
    as (a_max & b_max & a_min & b_min & Ea & Eb & Fa & Fb & Hr).
  destruct (extremes_of_both a b _ _ _ _ Ea Eb Fa Fb) as (Hhi & Hlo & Hb).
  destruct (array_max_spec a _ Ea) as [Ia _].
  destruct (array_max_spec b _ Eb) as [Ib _].
  destruct (array_min_spec a _ Fa) as [Ja _].
  destruct (array_min_spec b _ Fb) as [Jb _].
  pose proof (py_max_in_range a b a_max b_max Ra Rb Ia Ib) as Rmax.
  pose proof (py_min_in_range a b a_min b_min Ra Rb Ja Jb) as Rmin.
  cbv zeta in Rmax, Rmin. unfold scalar_sub in Hr. cbn [fst] in Hr.
  symmetry in Hr. apply cast_spread_zero in Hr; auto.
  - rewrite py_max_fst, py_min_fst in Hr. cbn [fst] in Hr.
    exists (Z.min a_min b_min). repeat split.
    + apply Forall_forall. intros x Hx.
      assert (In x (data a ++ data b)) as Hin by (apply in_or_app; now left).
      specialize (Hb x Hin). lia.
    + apply Forall_forall. intros x Hx.
      assert (In x (data a ++ data b)) as Hin by (apply in_or_app; now right).
      specialize (Hb x Hin). lia.
    + intros E0. rewrite E0 in Ia. destruct Ia.
    + intros E0. rewrite E0 in Ib. destruct Ib.
  - rewrite py_max_fst, py_min_fst. cbn [fst].
    specialize (Hb _ Hhi). lia.
Qed.

Lemma zero_range_only_for_constants_witness :
  exists c, Forall (eq c) (data (of_rows [[3; 3]])) /\
            Forall (eq c) (data (of_rows [[3]; [3]])) /\
            data (of_rows [[3; 3]]) <> [] /\ data (of_rows [[3]; [3]]) <> [].
Proof.
  apply (zero_range_only_for_constants (of_rows [[3; 3]]) (of_rows [[3]; [3]])).
  - repeat constructor.
  - repeat constructor.
  - reflexivity.
Defined.

(** * Dictionaries, loaders and [combine_hashmaps] *)

Section DictFacts.

Context {V : Type}.

Lemma dict_get_set_same (d : dict V) (k : string) (v : V) :
  dict_get (dict_set d k v) k = Return v.
Proof.
  induction d as [|[k' v'] d IH]; cbn [dict_set dict_get].
  - now rewrite String.eqb_refl.
  - destruct (String.eqb_spec k' k) as [->|Hne]; cbn [dict_get].
    + now rewrite String.eqb_refl.
    + rewrite (proj2 (String.eqb_neq k' k) Hne). exact IH.
Qed.

Lemma dict_get_set_other (d : dict V) (k k' : string) (v : V) :
  k <> k' -> dict_get (dict_set d k v) k' = dict_get d k'.
Proof.
  intros Hne.
  induction d as [|[k0 v0] d IH]; cbn [dict_set dict_get].
  - now rewrite (proj2 (String.eqb_neq k k') Hne).
  - destruct (String.eqb_spec k0 k) as [->|Hk]; cbn [dict_get].
    + now rewrite (proj2 (String.eqb_neq k k') Hne).
    + now rewrite IH.
Qed.

Lemma dict_get_in_keys (d : dict V) (k : string) :
  In k (keys d) <-> exists v, dict_get d k = Return v.
Proof.
  induction d as [|[k' v'] d IH]; cbn [keys map fst dict_get In].
  - split; [intros []|intros [v Hv]; discriminate].
  - destruct (String.eqb_spec k' k) as [->|Hne].
    + split; [eauto|auto].
    + fold (keys d). rewrite <- IH. tauto.
Qed.

Lemma dict_get_missing (d : dict V) (k : string) :
  ~ In k (keys d) -> dict_get d k = Throw (KeyError k).
Proof.
  induction d as [|[k' v'] d IH]; cbn [keys map fst dict_get In];
    [reflexivity|].
  intros Hn. destruct (String.eqb_spec k' k) as [->|Hne]; [tauto|].
  apply IH. tauto.
Qed.

Lemma keys_dict_set (d : dict V) (k : string) (v : V) :
  keys (dict_set d k v) =
  if in_dec string_dec k (keys d) then keys d else keys d ++ [k].
Proof.
  induction d as [|[k' v'] d IH]; cbn [dict_set keys map fst app];
    [reflexivity|].
  fold (keys d).
  destruct (String.eqb_spec k' k) as [->|Hne]; cbn [keys map fst].
  - destruct (in_dec string_dec k (k :: keys d)) as [|Hn];
      [reflexivity|exfalso; apply Hn; now left].
  - fold (keys (dict_set d k v)). rewrite IH.
    destruct (in_dec string_dec k (keys d)) as [Hi|Hi],
             (in_dec string_dec k (k' :: keys d)) as [Hj|Hj];
      try reflexivity.
    + exfalso. apply Hj. now right.
    + exfalso. destruct Hj; [congruence|contradiction].
Qed.

Lemma keys_dict_set_NoDup (d : dict V) (k : string) (v : V) :
  NoDup (keys d) -> NoDup (keys (dict_set d k v)).
Proof.
  intros Hn. rewrite keys_dict_set.
  destruct (in_dec string_dec k (keys d)) as [Hi|Hi]; [exact Hn|].
  apply NoDup_app; [exact Hn|repeat constructor; intros []|].
  intros x Hx [<-|[]]. contradiction.
Qed.

Lemma copy_keys_spec (hashmap : dict V) (ks : list string) (combined : dict V) :
  incl ks (keys hashmap) ->
  exists c, copy_keys V hashmap ks combined = Return c /\
    (NoDup (keys combined) -> NoDup (keys c)) /\
    forall k, dict_get c k =
              if in_dec string_dec k ks then dict_get hashmap k
              else dict_get combined k.
Proof.
  revert combined; induction ks as [|k0 ks IH]; intros combined Hin;
    cbn [copy_keys].
  - exists combined. auto.
  - assert (H0 : In k0 (keys hashmap)) by (apply Hin; now left).
    apply dict_get_in_keys in H0. destruct H0 as [v0 Hv0].
    rewrite Hv0. cbn [py_bind].
    destruct (IH (dict_set combined k0 v0)) as (c & Ec & Nc & Gc).
    { intros x Hx. apply Hin. now right. }
    exists c. split; [exact Ec|]. split.
    + intros Hn. now apply Nc, keys_dict_set_NoDup.
    + intros k. rewrite Gc.
      destruct (in_dec string_dec k ks) as [Hi|Hi],
               (in_dec string_dec k (k0 :: ks)) as [Hj|Hj]; try reflexivity.
      * exfalso. apply Hj. now right.
      * destruct Hj as [<-|Hj]; [|contradiction].
        now rewrite dict_get_set_same.
      * apply dict_get_set_other. intros <-. apply Hj. now left.
Qed.

Lemma combine_loop_spec (args : list (dict V)) (combined : dict V) :
  exists c, combine_loop V args combined = Return c /\
    (NoDup (keys combined) -> NoDup (keys c)) /\
    (forall k, (forall h, In h args -> ~ In k (keys h)) ->
               dict_get c k = dict_get combined k) /\
    (forall before h after k,
        args = before ++ h :: after -> In k (keys h) ->
        (forall h', In h' after -> ~ In k (keys h')) ->
        dict_get c k = dict_get h k).
Proof.
  revert combined; induction args as [|h0 rest IH]; intros combined;
    cbn [combine_loop].
  - exists combined. repeat split; auto.
    intros [|? ?] ? ? ? E; discriminate.
  - destruct (copy_keys_spec h0 (keys h0) combined (incl_refl _))
      as (c1 & E1 & N1 & G1).
    rewrite E1. cbn [py_bind].
    destruct (IH c1) as (c & Ec & Nc & Gnone & Glast).
    exists c. split; [exact Ec|]. split; [auto|]. split.
    + intros k Hk. rewrite Gnone by (intros h Hh; apply Hk; now right).
      rewrite G1. destruct (in_dec string_dec k (keys h0)) as [Hi|Hi];
        [|reflexivity].
      exfalso. apply (Hk h0); [now left|exact Hi].
    + intros before h after k E Hin Hafter.
      destruct before as [|b before]; cbn [app] in E; injection E as E0 E.
      * subst h0 rest. rewrite Gnone by exact Hafter.
        rewrite G1. destruct (in_dec string_dec k (keys h)); [reflexivity|].
        contradiction.
      * subst b. now apply (Glast before h after k).
Qed.

End DictFacts.

Lemma has_key_true {V : Type} (d : dict V) (k : string) :
  has_key d k = true -> exists v, dict_get d k = Return v.
Proof.
  intros H. apply dict_get_in_keys. unfold has_key in H.
  apply existsb_exists in H. destruct H as (k' & Hin & E).
  apply String.eqb_eq in E. now subst.
Qed.

Lemma has_key_false {V : Type} (d : dict V) (k : string) :
  has_key d k = false -> dict_get d k = Throw (KeyError k).
Proof.
  intros H. apply dict_get_missing. intros Hin.
  assert (E : has_key d k = true).
  { apply existsb_exists. exists k. split; [exact Hin|apply String.eqb_refl]. }
  congruence.
Qed.

(** Decide the next lookup of a loader: either the key is bound, and the
    lookup is replaced by its value, or the loader stops with [KeyError]. *)
Ltac next_key d k :=
  destruct (has_key d k) eqn:?;
  [ let v := fresh "v" in
    let E := fresh "E" in
    destruct (has_key_true d k) as [v E]; [assumption|];
    rewrite E; cbn [py_bind negb find]
  | rewrite (has_key_false d k) by assumption; reflexivity ].

(** X14. [load_baselines] stops with [KeyError] at the first key, in the
    order image, label, label_random, label_watershed, label_felzenszwalb,
    that the archive lacks; on a complete archive it returns these five
    arrays in that order, the array stored as [label] being bound to
    [label_true]. *)
Theorem load_baselines_behaviour (V : Type) (numpy_array : dict V) :
  match first_missing numpy_array
          ["image"; "label"; "label_random"; "label_watershed";
           "label_felzenszwalb"]%string with
  | Some k => load_baselines V numpy_array = Throw (KeyError k)
  | None =>
      exists image label label_random label_watershed label_felzenszwalb,
        dict_get numpy_array "image" = Return image /\
        dict_get numpy_array "label" = Return label /\
        dict_get numpy_array "label_random" = Return label_random /\
        dict_get numpy_array "label_watershed" = Return label_watershed /\
        dict_get numpy_array "label_felzenszwalb" = Return label_felzenszwalb /\
        load_baselines V numpy_array =
        Return [("image", image); ("label_true", label);
                ("label_random", label_random);
                ("label_watershed", label_watershed);
                ("label_felzenszwalb", label_felzenszwalb)]%string
  end.
Proof.
  unfold first_missing, load_baselines. cbn [find].
  next_key numpy_array "image"%string.
  next_key numpy_array "label"%string.
  next_key numpy_array "label_random"%string.
  next_key numpy_array "label_watershed"%string.
  next_key numpy_array "label_felzenszwalb"%string.
  exists v, v0, v1, v2, v3. repeat split; assumption || reflexivity.
Qed.

(** X15. [load_kmeans] stops with [KeyError] at the first key, in the order
    image, label, latent, label_kmeans, seg_kmeans, that the archive lacks;
    on a complete archive it returns these five arrays in that order, with
    [label] bound to [label_true]. *)
Theorem load_kmeans_behaviour (V : Type) (numpy_array : dict V) :
  match first_missing numpy_array
          ["image"; "label"; "latent"; "label_kmeans"; "seg_kmeans"]%string with
  | Some k => load_kmeans V numpy_array = Throw (KeyError k)
  | None =>
      exists image label latent label_kmeans seg_kmeans,
        dict_get numpy_array "image" = Return image /\
        dict_get numpy_array "label" = Return label /\
        dict_get numpy_array "latent" = Return latent /\
        dict_get numpy_array "label_kmeans" = Return label_kmeans /\
        dict_get numpy_array "seg_kmeans" = Return seg_kmeans /\
        load_kmeans V numpy_array =
        Return [("image", image); ("label_true", label); ("latent", latent);
                ("label_kmeans", label_kmeans); ("seg_kmeans", seg_kmeans)]%string
  end.
Proof.
  unfold first_missing, load_kmeans. cbn [find].
  next_key numpy_array "image"%string.
  next_key numpy_array "label"%string.
  next_key numpy_array "latent"%string.
  next_key numpy_array "label_kmeans"%string.
  next_key numpy_array "seg_kmeans"%string.
  exists v, v0, v1, v2, v3. repeat split; assumption || reflexivity.
Qed.

(** X16. [load_diffusion] stops with [KeyError] at the first key, in the
    order image, recon, label, latent, granularities_diffusion,
    labels_diffusion, that the archive lacks; on a complete archive it
    returns these six arrays in that order, with [label] bound to
    [label_true]. *)
Theorem load_diffusion_behaviour (V : Type) (numpy_array : dict V) :
  match first_missing numpy_array
          ["image"; "recon"; "label"; "latent"; "granularities_diffusion";
           "labels_diffusion"]%string with
  | Some k => load_diffusion V numpy_array = Throw (KeyError k)
  | None =>
      exists image recon label latent granularities labels_diffusion,
        dict_get numpy_array "image" = Return image /\
        dict_get numpy_array "recon" = Return recon /\
        dict_get numpy_array "label" = Return label /\
        dict_get numpy_array "latent" = Return latent /\
        dict_get numpy_array "granularities_diffusion" = Return granularities /\
        dict_get numpy_array "labels_diffusion" = Return labels_diffusion /\
        load_diffusion V numpy_array =
        Return [("image", image); ("recon", recon); ("label_true", label);
                ("latent", latent); ("granularities_diffusion", granularities);
                ("labels_diffusion", labels_diffusion)]%string
  end.
Proof.
  unfold first_missing, load_diffusion. cbn [find].
  next_key numpy_array "image"%string.
  next_key numpy_array "recon"%string.
  next_key numpy_array "label"%string.
  next_key numpy_array "latent"%string.
  next_key numpy_array "granularities_diffusion"%string.
  next_key numpy_array "labels_diffusion"%string.
  exists v, v0, v1, v2, v3, v4. repeat split; assumption || reflexivity.
Qed.

(** X17. [combine_hashmaps] never raises; the combined dictionary binds
    each key once, a key that no argument has stays unbound, and a key
    takes its value from the last argument that has it. *)
Theorem combine_hashmaps_last_wins (V : Type) (args : list (dict V)) :
  exists combined, combine_hashmaps V args = Return combined /\
    NoDup (keys combined) /\
    (forall k, (forall h, In h args -> ~ In k (keys h)) ->
               dict_get combined k = Throw (KeyError k)) /\
    (forall before h after k,
        args = before ++ h :: after -> In k (keys h) ->
        (forall h', In h' after -> ~ In k (keys h')) ->
        dict_get combined k = dict_get h k).
Proof.
  unfold combine_hashmaps.
  destruct (combine_loop_spec args []) as (c & Ec & Nc & Gnone & Glast).
  exists c. split; [exact Ec|]. split; [apply Nc; constructor|].
  split; [|exact Glast].
  intros k Hk. now rewrite (Gnone k Hk).
Qed.

(** * [segment_diffusion] and the loading part of the batch loop *)

Section SegmentFacts.

Context {V aux : Type}.
Variable shape_of : V -> list nat.
Variable reshape_to : V -> list nat -> result V.
Variable most_persistent_structures : V -> Q -> Q -> py (V * aux).
Variable point_hint_seg : V -> V -> py V.

Let segment :=
  segment_diffusion V aux shape_of reshape_to most_persistent_structures
                    point_hint_seg.

Lemma segment_diffusion_inv (hashmap hashmap' : dict V) (hparams : HParams) :
  segment hashmap hparams = Return hashmap' ->
  exists label_true labels_diffusion H W B rest reshaped persistent a seg,
    dict_get hashmap "label_true" = Return label_true /\
    dict_get hashmap "labels_diffusion" = Return labels_diffusion /\
    shape_of label_true = [H; W] /\
    shape_of labels_diffusion = B :: rest /\
    reshape_to labels_diffusion [B; H; W] = Ok reshaped /\
    most_persistent_structures reshaped (min_frame_ratio hparams)
      (min_area_ratio hparams) = Return (persistent, a) /\
    point_hint_seg persistent label_true = Return seg /\
    hashmap' = dict_set (dict_set hashmap "seg_diffusion" seg)
                        "label_diffusion" persistent.
Proof.
  unfold segment, segment_diffusion.
  destruct (dict_get hashmap "label_true") as [lt|] eqn:E1; cbn [py_bind];
    [|discriminate].
  destruct (dict_get hashmap "labels_diffusion") as [ld|] eqn:E2;
    cbn [py_bind]; [|discriminate].
  destruct (shape_of lt) as [|H [|W [|? ?]]] eqn:S1; try discriminate.
  destruct (shape_of ld) as [|B rest] eqn:S2; try discriminate.
  destruct (reshape_to ld [B; H; W]) as [rs|] eqn:R; cbn [lift py_bind];
    [|discriminate].
  destruct (most_persistent_structures rs _ _) as [[pl a]|] eqn:M;
    cbn [py_bind fst]; [|discriminate].
  destruct (point_hint_seg pl lt) as [seg|] eqn:P; cbn [py_bind];
    [|discriminate].
  intros E; injection E as <-.
  exists lt, ld, H, W, B, rest, rs, pl, a, seg. repeat split; assumption.
Qed.

End SegmentFacts.

(** X18. When [segment_diffusion] returns, the dictionary binds
    [label_diffusion] to the persistent label map that
    [most_persistent_structures] produced from the stack reshaped to
    (B, H, W), binds [seg_diffusion] to what [point_hint_seg] made of that
    map and of [label_true], and leaves every other key as it was. *)
Theorem segment_diffusion_effect
        (V aux : Type) (shape_of : V -> list nat)
        (reshape_to : V -> list nat -> result V)
        (most_persistent_structures : V -> Q -> Q -> py (V * aux))
        (point_hint_seg : V -> V -> py V)
        (hashmap hashmap' : dict V) (hparams : HParams) :
  segment_diffusion V aux shape_of reshape_to most_persistent_structures
    point_hint_seg hashmap hparams = Return hashmap' ->
  exists label_true labels_diffusion H W B rest reshaped persistent a seg,
    dict_get hashmap "label_true" = Return label_true /\
    dict_get hashmap "labels_diffusion" = Return labels_diffusion /\
    shape_of label_true = [H; W] /\
    shape_of labels_diffusion = B :: rest /\
    reshape_to labels_diffusion [B; H; W] = Ok reshaped /\
    most_persistent_structures reshaped (min_frame_ratio hparams)
      (min_area_ratio hparams) = Return (persistent, a) /\
    point_hint_seg persistent label_true = Return seg /\
    dict_get hashmap' "seg_diffusion" = Return seg /\
    dict_get hashmap' "label_diffusion" = Return persistent /\
    forall k, k <> "seg_diffusion"%string -> k <> "label_diffusion"%string ->
              dict_get hashmap' k = dict_get hashmap k.
Proof.
  intros E.
  destruct (segment_diffusion_inv _ _ _ _ _ _ _ E)
    as (lt & ld & H & W & B & rest & rs & pl & a & seg &
        E1 & E2 & S1 & S2 & R & M & P & ->).
  exists lt, ld, H, W, B, rest, rs, pl, a, seg.
  repeat split; try assumption.
  - rewrite dict_get_set_other by discriminate. apply dict_get_set_same.
  - apply dict_get_set_same.
  - intros k K1 K2.
    rewrite dict_get_set_other by congruence.
    apply dict_get_set_other. congruence.
Qed.

Lemma segment_diffusion_effect_witness :
  exists label_true labels_diffusion H W B rest reshaped persistent (a : unit) seg,
    dict_get [("label_true", 2); ("labels_diffusion", 11)]%string "label_true" =
      Return label_true /\
    dict_get [("label_true", 2); ("labels_diffusion", 11)]%string
      "labels_diffusion" = Return labels_diffusion /\
    (fun _ : Z => [2%nat; 2%nat]) label_true = [H; W] /\
    (fun _ : Z => [2%nat; 2%nat]) labels_diffusion = B :: rest /\
    (fun (v : Z) (_ : list nat) => Ok v) labels_diffusion [B; H; W] =
      Ok reshaped /\
    (fun (v : Z) (_ _ : Q) => Return (v + 1, tt)) reshaped
      (min_frame_ratio (mk_hparams false (1 # 2) (1 # 500)))
      (min_area_ratio (mk_hparams false (1 # 2) (1 # 500))) =
      Return (persistent, a) /\
    (fun (v _ : Z) => Return (v + 2)) persistent label_true = Return seg /\
    dict_get [("label_true", 2); ("labels_diffusion", 11);
              ("seg_diffusion", 14); ("label_diffusion", 12)]%string
      "seg_diffusion" = Return seg /\
    dict_get [("label_true", 2); ("labels_diffusion", 11);
              ("seg_diffusion", 14); ("label_diffusion", 12)]%string
      "label_diffusion" = Return persistent /\
    forall k, k <> "seg_diffusion"%string -> k <> "label_diffusion"%string ->
              dict_get [("label_true", 2); ("labels_diffusion", 11);
                        ("seg_diffusion", 14); ("label_diffusion", 12)]%string k =
              dict_get [("label_true", 2); ("labels_diffusion", 11)]%string k.
Proof.
  apply (segment_diffusion_effect Z unit (fun _ => [2%nat; 2%nat])
           (fun v _ => Ok v) (fun v _ _ => Return (v + 1, tt))
           (fun v _ => Return (v + 2))
           [("label_true", 2); ("labels_diffusion", 11)]%string
           [("label_true", 2); ("labels_diffusion", 11);
            ("seg_diffusion", 14); ("label_diffusion", 12)]%string
           (mk_hparams false (1 # 2) (1 # 500))).
  reflexivity.
Defined.

(** X19. [segment_diffusion] stops before it calls any external routine
    when [label_true] is missing ([KeyError]), when [labels_diffusion] is
    missing ([KeyError]), when [label_true] is not two-dimensional
    ([ValueError] from the unpacking) and when the stack cannot be reshaped
    to (B, H, W) (the error of [reshape]). *)
Theorem segment_diffusion_early_errors
        (V aux : Type) (shape_of : V -> list nat)
        (reshape_to : V -> list nat -> result V)
        (most_persistent_structures : V -> Q -> Q -> py (V * aux))
        (point_hint_seg : V -> V -> py V)
        (hashmap : dict V) (hparams : HParams) :
  let segment :=
    segment_diffusion V aux shape_of reshape_to most_persistent_structures
      point_hint_seg hashmap hparams in
  (has_key hashmap "label_true" = false ->
   segment = Throw (KeyError "label_true")) /\
  (has_key hashmap "label_true" = true ->
   has_key hashmap "labels_diffusion" = false ->
   segment = Throw (KeyError "labels_diffusion")) /\
  (forall label_true labels_diffusion,
      dict_get hashmap "label_true" = Return label_true ->
      dict_get hashmap "labels_diffusion" = Return labels_diffusion ->
      length (shape_of label_true) <> 2%nat ->
      segment = Throw (Builtin ValueError)) /\
  (forall label_true labels_diffusion H W B rest e,
      dict_get hashmap "label_true" = Return label_true ->
      dict_get hashmap "labels_diffusion" = Return labels_diffusion ->
      shape_of label_true = [H; W] ->
      shape_of labels_diffusion = B :: rest ->
      reshape_to labels_diffusion [B; H; W] = Raise e ->
      segment = Throw (Builtin e)).
Proof.
  cbv zeta. unfold segment_diffusion. repeat split.
  - intros H1. now rewrite (has_key_false _ _ H1).
  - intros H1 H2. destruct (has_key_true _ _ H1) as [lt E1].
    rewrite E1. cbn [py_bind]. now rewrite (has_key_false _ _ H2).
  - intros lt ld E1 E2 Hn. rewrite E1, E2. cbn [py_bind].
    destruct (shape_of lt) as [|H [|W [|? ?]]]; try reflexivity.
    simpl in Hn. congruence.
  - intros lt ld H W B rest e E1 E2 S1 S2 R.
    rewrite E1, E2. cbn [py_bind]. now rewrite S1, S2, R.
Qed.

Ltac py_step H :=
  match type of H with
  | py_bind ?r _ = Return _ =>
      let E := fresh "E" in
      destruct r eqn:E; cbn [py_bind] in H; [|discriminate H]
  end.

Lemma load_baselines_inv (V : Type) (numpy_array h : dict V) :
  load_baselines V numpy_array = Return h ->
  exists image label label_random label_watershed label_felzenszwalb,
    dict_get numpy_array "image" = Return image /\
    dict_get numpy_array "label" = Return label /\
    h = [("image", image); ("label_true", label);
         ("label_random", label_random);
         ("label_watershed", label_watershed);
         ("label_felzenszwalb", label_felzenszwalb)]%string.
Proof.
  unfold load_baselines. intros H.
  do 5 py_step H. injection H as <-.
  repeat eexists; eassumption || reflexivity.
Qed.

Lemma load_kmeans_inv (V : Type) (numpy_array h : dict V) :
  load_kmeans V numpy_array = Return h ->
  exists image label latent label_kmeans seg_kmeans,
    h = [("image", image); ("label_true", label); ("latent", latent);
         ("label_kmeans", label_kmeans); ("seg_kmeans", seg_kmeans)]%string.
Proof.
  unfold load_kmeans. intros H.
  do 5 py_step H. injection H as <-.
  repeat eexists.
Qed.

Lemma load_diffusion_inv (V : Type) (numpy_array h : dict V) :
  load_diffusion V numpy_array = Return h ->
  exists image recon label latent granularities labels_diffusion,
    dict_get numpy_array "image" = Return image /\
    dict_get numpy_array "label" = Return label /\
    h = [("image", image); ("recon", recon); ("label_true", label);
         ("latent", latent); ("granularities_diffusion", granularities);
         ("labels_diffusion", labels_diffusion)]%string.
Proof.
  unfold load_diffusion. intros H.
  do 6 py_step H. injection H as <-.
  repeat eexists; eassumption || reflexivity.
Qed.

(** X20. When the loading part of an iteration (three loaders, the two
    consistency assertions, [combine_hashmaps], [segment_diffusion])
    returns, the dictionary holds exactly thirteen keys, in the order
    given; both keys of every entry of [entity_tuples] are bound, so the
    metric loop meets no missing key; and [image] and [label_true] are the
    arrays of the diffusion archive, the last dictionary combined. *)
Theorem load_and_segment_binds_all_entities
        (V aux : Type) (shape_of : V -> list nat)
        (reshape_to : V -> list nat -> result V)
        (most_persistent_structures : V -> Q -> Q -> py (V * aux))
        (point_hint_seg : V -> V -> py V)
        (all_equal : V -> V -> py bool)
        (baselines kmeans diffusion hashmap : dict V) (hparams : HParams) :
  load_and_segment V aux shape_of reshape_to most_persistent_structures
    point_hint_seg all_equal baselines kmeans diffusion hparams
  = Return hashmap ->
  keys hashmap =
  ["image"; "label_true"; "label_random"; "label_watershed";
   "label_felzenszwalb"; "latent"; "label_kmeans"; "seg_kmeans"; "recon";
   "granularities_diffusion"; "labels_diffusion"; "seg_diffusion";
   "label_diffusion"]%string /\
  Forall (fun t => has_key hashmap (snd (fst t)) = true /\
                   has_key hashmap (snd t) = true) entity_tuples /\
  dict_get hashmap "image" = dict_get diffusion "image" /\
  dict_get hashmap "label_true" = dict_get diffusion "label".
Proof.
  unfold load_and_segment. intros H.
  py_step H. py_step H. py_step H.
  apply load_baselines_inv in E.
  destruct E as (bi & bl & blr & blw & blf & _ & _ & ->).
  apply load_kmeans_inv in E0.
  destruct E0 as (ki & kl & kla & klk & ksk & ->).
  apply load_diffusion_inv in E1.
  destruct E1 as (di & dr & dl & dla & dg & dld & Di & Dl & ->).
  py_step H. py_step H. clear E E0.
  py_step H. cbn in E. injection E as <-.
  apply segment_diffusion_inv in H.
  destruct H as (lt & ld & Hh & Ww & B & rest & rs & pl & extra & seg &
                 E1 & E2 & S1 & S2 & R & M & P & ->).
  cbn in E1. injection E1 as <-.
  rewrite Di, Dl.
  repeat split.
  repeat constructor.
Qed.

Lemma load_and_segment_binds_all_entities_witness :
  keys sample_hashmap =
  ["image"; "label_true"; "label_random"; "label_watershed";
   "label_felzenszwalb"; "latent"; "label_kmeans"; "seg_kmeans"; "recon";
   "granularities_diffusion"; "labels_diffusion"; "seg_diffusion";
   "label_diffusion"]%string /\
  Forall (fun t => has_key sample_hashmap (snd (fst t)) = true /\
                   has_key sample_hashmap (snd t) = true) entity_tuples /\
  dict_get sample_hashmap "image" = dict_get sample_diffusion "image" /\
  dict_get sample_hashmap "label_true" = dict_get sample_diffusion "label".
Proof.
  apply (load_and_segment_binds_all_entities Z unit (fun _ => [2%nat; 2%nat])
           (fun v _ => Ok v) (fun v _ _ => Return (v + 1, tt))
           (fun v _ => Return (v + 2)) (fun x y => Return (x =? y))
           sample_baselines sample_kmeans sample_diffusion sample_hashmap
           (mk_hparams false (1 # 2) (1 # 500))).
  reflexivity.
Defined.

(** * The batch as a whole *)

Lemma batch_app (w : world) (env : binding) (l1 l2 : list nat) :
  batch w env (l1 ++ l2) =
  match batch w env l1 with
  | Completed => batch w env l2
  | failure => failure
  end.
Proof.
  induction l1 as [|i l1 IH]; cbn [app batch]; [reflexivity|].
  destruct (iteration w env i); [exact IH|reflexivity].
Qed.

Lemma batch_completed (w : world) (env : binding) (idxs : list nat) :
  batch w env idxs = Completed <->
  forall i, In i idxs -> iteration w env i = Completed.
Proof.
  induction idxs as [|i rest IH]; cbn [batch In].
  - split; [intros _ i []|reflexivity].
  - destruct (iteration w env i) eqn:Ei.
    + rewrite IH. split.
      * intros Hr j [<-|Hj]; auto.
      * intros Hall j Hj. apply Hall. now right.
    + split; [discriminate|]. intros Hall.
      specialize (Hall i (or_introl eq_refl)). congruence.
Qed.

Lemma iteration_completed (w : world) (env : binding) (i : nat) :
  iteration w env i = Completed <->
  env <> None /\ loads_ok w i = true /\ consistent w i = true /\
  segment_ok w i = true /\ metrics_ok w i = true.
Proof.
  unfold iteration.
  destruct (loads_ok w i), (consistent w i), env as [h|], (segment_ok w i),
    (metrics_ok w i); cbn; split; try discriminate; try tauto;
    try (intros (? & ? & ? & ? & ?); congruence).
  all: intros _; repeat split; congruence.
Qed.

(** X21. The batch is all or nothing: the run completes exactly when the
    dataset name is one of the two known ones, the three directories hold
    the same number of files and, for every file, loading, the consistency
    assertions, [segment_diffusion] and the metrics all go through. *)
Theorem run_completes_iff (w : world) :
  run w = Completed <->
  (dataset_name w = "retina"%string \/ dataset_name w = "berkeley"%string) /\
  n_baselines w = n_kmeans w /\ n_baselines w = n_diffusion w /\
  forall i, (i < n_baselines w)%nat ->
    loads_ok w i = true /\ consistent w i = true /\
    segment_ok w i = true /\ metrics_ok w i = true.
Proof.
  assert (Hd : dispatch (dataset_name w) <> None <->
               dataset_name w = "retina"%string \/
               dataset_name w = "berkeley"%string).
  { unfold dispatch.
    destruct (String.eqb_spec (dataset_name w) "retina");
      [split; [auto|discriminate]|].
    destruct (String.eqb_spec (dataset_name w) "berkeley");
      [split; [auto|discriminate]|].
    split; [congruence|tauto]. }
  unfold run. cbv zeta.
  destruct (Nat.eqb_spec (n_baselines w) (n_kmeans w)) as [Ek|Ek];
    [|cbn; split; [discriminate|tauto]].
  destruct (Nat.eqb_spec (n_baselines w) (n_diffusion w)) as [Ed|Ed];
    [|cbn; split; [discriminate|tauto]].
  cbn [andb negb].
  destruct (batch w (dispatch (dataset_name w)) (seq 0 (n_baselines w)))
    eqn:Eb.
  - rewrite batch_completed in Eb.
    destruct (dispatch (dataset_name w)) as [h|] eqn:D; cbn [read_hparams].
    + split; [intros _|reflexivity].
      split; [apply Hd; discriminate|]. split; [exact Ek|]. split; [exact Ed|].
      intros i Hi.
      assert (Hin : In i (seq 0 (n_baselines w))) by (apply in_seq; lia).
      apply Eb, iteration_completed in Hin. tauto.
    + split; [discriminate|]. intros (Hn & _). apply Hd in Hn. congruence.
  - split; [discriminate|]. intros (Hn & _ & _ & Hall).
    assert (Hc : batch w (dispatch (dataset_name w)) (seq 0 (n_baselines w)) =
                 Completed).
    { apply batch_completed. intros i Hi. apply in_seq in Hi.
      apply iteration_completed. split; [now apply Hd|]. apply Hall. lia. }
    congruence.
Qed.

(** X22. The run stops at the first file that fails: when the file counts
    agree and every iteration before [i] goes through, the failure of
    iteration [i] is the outcome of the whole run; no later file is
    touched and no report is printed. *)
Theorem run_stops_at_first_failure (w : world) (i : nat) (e : exn) (s : site) :
  n_baselines w = n_kmeans w -> n_baselines w = n_diffusion w ->
  (i < n_baselines w)%nat ->
  (forall j, (j < i)%nat ->
             iteration w (dispatch (dataset_name w)) j = Completed) ->
  iteration w (dispatch (dataset_name w)) i = Failed e s ->
  run w = Failed e s.
Proof.
  intros Ek Ed Hi Hbefore Hfail. unfold run. cbv zeta.
  rewrite <- Ek, <- Ed, Nat.eqb_refl. cbn [andb negb].
  replace (n_baselines w) with (i + (1 + (n_baselines w - i - 1)))%nat by lia.
  rewrite seq_app, batch_app.
  assert (Hc : batch w (dispatch (dataset_name w)) (seq 0 i) = Completed).
  { apply batch_completed. intros j Hj. apply in_seq in Hj. apply Hbefore. lia. }
  rewrite Hc. cbn [Nat.add seq batch]. now rewrite Hfail.
Qed.

Lemma run_stops_at_first_failure_witness :
  run (mk_world "retina" 3 3 3 (fun _ => true) (fun i => negb (Nat.eqb i 1))
                (fun _ => true) (fun _ => true)) =
  Failed AssertionError (AtConsistencyAssert 1).
Proof.
  apply (run_stops_at_first_failure
           (mk_world "retina" 3 3 3 (fun _ => true)
                     (fun i => negb (Nat.eqb i 1))
                     (fun _ => true) (fun _ => true)) 1);
    try reflexivity.
  - simpl. lia.
  - intros j Hj. assert (j = 0%nat) as -> by lia. reflexivity.
Defined.

(** * [guided_relabel] followed by [range_aware_ssim] *)

Lemma array_max_absorbs (a b : ndarray) (m : Z) :
  array_max a = Ok m -> data b <> [] -> incl (data b) (data a) ->
  exists m', array_max b = Ok m' /\ m' <= m.
Proof.
  intros Ea Nb Hincl.
  destruct (array_max_ok b Nb) as [m' Eb]. exists m'. split; [exact Eb|].
  destruct (array_max_spec a m Ea) as [_ Ua].
  destruct (array_max_spec b m' Eb) as [Ib _].
  exact (Ua m' (Hincl m' Ib)).
Qed.

Lemma array_min_absorbs (a b : ndarray) (m : Z) :
  array_min a = Ok m -> data b <> [] -> incl (data b) (data a) ->
  exists m', array_min b = Ok m' /\ m <= m'.
Proof.
  intros Ea Nb Hincl.
  destruct (array_min_ok b Nb) as [m' Eb]. exists m'. split; [exact Eb|].
  destruct (array_min_spec a m Ea) as [_ La].
  destruct (array_min_spec b m' Eb) as [Ib _].
  exact (La m' (Hincl m' Ib)).
Qed.

(** The range of the ground truth and the relabelled prediction is the
    range of the ground truth: the relabelled map holds ground-truth values
    only, and on ties [max] and [min] keep the scalar of their first
    argument, the ground truth. *)
Lemma relabelled_data_range (A B : ndarray) (H W : nat) :
  wf A -> wf B -> shape A = [H; W] -> shape B = [H; W] ->
  (0 < H * W)%nat ->
  fits (dtype_of A) (data B) ->
  exists out t_max t_min,
    guided_relabel A B = Ok out /\
    array_max B = Ok t_max /\ array_min B = Ok t_min /\
    data_range B out = Ok (cast (dtype_of B) (t_max - t_min)).
Proof.
  intros WA WB SA SB Hpos Hfit.
  destruct (guided_relabel_total A B H W WA WB SA SB) as (out & E & So & Wo & Do).
  pose proof (wf_2d_length A H W WA SA) as LA.
  pose proof (wf_2d_length B H W WB SB) as LB.
  assert (NB : data B <> []) by (intros E0; rewrite E0 in LB; simpl in LB; lia).
  assert (NO : data out <> []).
  { rewrite Do. intros E0. apply (f_equal (@length Z)) in E0.
    rewrite length_map, LA in E0. simpl in E0. lia. }
  assert (Hincl : incl (data out) (data B)).
  { intros v Hv. rewrite Do in Hv. apply in_map_iff in Hv.
    destruct Hv as (x & <- & Hx). now apply (written_from_truth A B H W). }
  destruct (array_max_ok B NB) as [t_max Emax].
  destruct (array_min_ok B NB) as [t_min Emin].
  destruct (array_max_absorbs B out t_max Emax NO Hincl) as (m' & Em' & Hm').
  destruct (array_min_absorbs B out t_min Emin NO Hincl) as (n' & En' & Hn').
  exists out, t_max, t_min. repeat split; auto.
  unfold data_range. rewrite Emax, Em', Emin, En'. cbn [bind].
  unfold py_max, py_min, scalar_sub. cbn [fst snd].
  rewrite (proj2 (Z.ltb_ge t_max m') Hm'), (proj2 (Z.ltb_ge n' t_min) Hn').
  cbn [fst snd]. now rewrite promote_same.
Qed.

(** * The metric loop *)

Section MetricFacts.

Context {score : Type}.
Variable dice_coeff : ndarray -> ndarray -> py score.
Variable ergas : ndarray -> ndarray -> py score.
Variable rmse : ndarray -> ndarray -> py score.
Variable ssim : ndarray -> ndarray -> Z -> result score.

Lemma values_of_set_same (m : metric_table score) (name entry : string)
      (per : dict (list score)) :
  values_of score (dict_set m name per) name entry = dict_get per entry.
Proof.
  unfold values_of. now rewrite dict_get_set_same.
Qed.

Lemma values_of_set_other (m : metric_table score) (name name' entry : string)
      (per : dict (list score)) :
  name <> name' ->
  values_of score (dict_set m name per) name' entry = values_of score m name' entry.
Proof.
  intros Hne. unfold values_of. now rewrite dict_get_set_other.
Qed.

Lemma append_to_inv (m m' : metric_table score) (name entry : string)
      (value : py score) :
  append_to score m name entry value = Return m' ->
  appended_once score m m' name entry /\
  forall name' entry', name' <> name \/ entry' <> entry ->
    values_of score m' name' entry' = values_of score m name' entry'.
Proof.
  unfold append_to. intros H.
  destruct (dict_get m name) as [per|] eqn:E1; cbn [py_bind] in H;
    [|discriminate].
  destruct (dict_get per entry) as [old|] eqn:E2; cbn [py_bind] in H;
    [|discriminate].
  destruct value as [x|]; cbn [py_bind] in H; [|discriminate].
  injection H as <-. split.
  - exists old, x. unfold values_of at 1. rewrite E1. cbn [py_bind].
    split; [exact E2|].
    rewrite values_of_set_same. apply dict_get_set_same.
  - intros name' entry' Hd.
    destruct (string_dec name name') as [<-|Hn].
    + rewrite values_of_set_same. unfold values_of. rewrite E1. cbn [py_bind].
      apply dict_get_set_other. destruct Hd; congruence.
    + now apply values_of_set_other.
Qed.

Lemma appended_once_after (m m1 m2 : metric_table score) (name entry : string) :
  appended_once score m m1 name entry ->
  values_of score m2 name entry = values_of score m1 name entry ->
  appended_once score m m2 name entry.
Proof.
  intros (old & x & E1 & E2) E. exists old, x. split; congruence.
Qed.

Lemma appended_once_before (m m1 m2 : metric_table score) (name entry : string) :
  values_of score m1 name entry = values_of score m name entry ->
  appended_once score m1 m2 name entry ->
  appended_once score m m2 name entry.
Proof.
  intros E (old & x & E1 & E2). exists old, x. split; congruence.
Qed.

Let score_entry' := score_entry score dice_coeff ergas rmse ssim.
Let score_entries' := score_entries score dice_coeff ergas rmse ssim.

Lemma score_entry_effect (hparams : HParams) (hashmap : dict ndarray)
      (m m' : metric_table score) (tup : string * string * string) :
  score_entry' hparams hashmap m tup = Return m' ->
  let entry := fst (fst tup) in
  appended_once score m m' "ssim" entry /\
  appended_once score m m' "ergas" entry /\
  appended_once score m m' "rmse" entry /\
  (if is_binary hparams then appended_once score m m' "dice" entry
   else forall entry', values_of score m' "dice" entry' =
                       values_of score m "dice" entry') /\
  forall name entry', entry' <> entry ->
    values_of score m' name entry' = values_of score m name entry'.
Proof.
  unfold score_entry', score_entry. cbv zeta. intros H.
  destruct (is_binary hparams).
  - py_step H. py_step H. py_step H.
    apply append_to_inv in E, E0, E1, H.
    destruct E as [A1 U1], E0 as [A2 U2], E1 as [A3 U3], H as [A4 U4].
    repeat split.
    + eapply appended_once_after; [eapply appended_once_before; [|exact A2]|].
      * apply U1. left. discriminate.
      * rewrite U4 by (left; discriminate). apply U3. left. discriminate.
    + eapply appended_once_after; [eapply appended_once_before; [|exact A3]|].
      * rewrite U2 by (left; discriminate). apply U1. left. discriminate.
      * apply U4. left. discriminate.
    + eapply appended_once_before; [|exact A4].
      rewrite U3 by (left; discriminate). rewrite U2 by (left; discriminate).
      apply U1. left. discriminate.
    + eapply appended_once_after; [exact A1|].
      rewrite U4 by (left; discriminate). rewrite U3 by (left; discriminate).
      apply U2. left. discriminate.
    + intros name entry' Hd.
      rewrite U4, U3, U2, U1 by (now right). reflexivity.
  - py_step H. py_step H.
    apply append_to_inv in E, E0, H.
    destruct E as [A1 U1], E0 as [A2 U2], H as [A3 U3].
    repeat split.
    + eapply appended_once_after; [exact A1|].
      rewrite U3 by (left; discriminate). apply U2. left. discriminate.
    + eapply appended_once_after; [eapply appended_once_before; [|exact A2]|].
      * apply U1. left. discriminate.
      * apply U3. left. discriminate.
    + eapply appended_once_before; [|exact A3].
      rewrite U2 by (left; discriminate). apply U1. left. discriminate.
    + intros entry'.
      rewrite U3, U2, U1 by (left; discriminate). reflexivity.
    + intros name entry' Hd.
      rewrite U3, U2, U1 by (now right). reflexivity.
Qed.

Lemma score_entries_effect (hparams : HParams) (hashmap : dict ndarray)
      (tuples : list (string * string * string)) (m m' : metric_table score) :
  NoDup (map (fun t => fst (fst t)) tuples) ->
  score_entries' hparams hashmap tuples m = Return m' ->
  (forall tup, In tup tuples ->
     let entry := fst (fst tup) in
     appended_once score m m' "ssim" entry /\
     appended_once score m m' "ergas" entry /\
     appended_once score m m' "rmse" entry /\
     (if is_binary hparams then appended_once score m m' "dice" entry
      else values_of score m' "dice" entry = values_of score m "dice" entry)) /\
  (forall name entry', ~ In entry' (map (fun t => fst (fst t)) tuples) ->
     values_of score m' name entry' = values_of score m name entry').
Proof.
  unfold score_entries'.
  revert m; induction tuples as [|t rest IH]; intros m Hnd H;
    cbn [score_entries map] in *.
  - injection H as <-. split; [intros ? []|reflexivity].
  - py_step H. fold score_entry' in E.
    pose proof (score_entry_effect _ _ _ _ _ E) as Ht. cbv zeta in Ht.
    destruct Ht as (S1 & S2 & S3 & S4 & Sother).
    apply NoDup_cons_iff in Hnd. destruct Hnd as [Hnotin Hnd].
    destruct (IH _ Hnd H) as [Hin Hout]. split.
    + intros tup [<-|Htup]; cbv zeta.
      * repeat split;
          try (eapply appended_once_after; [eassumption|now apply Hout]).
        destruct (is_binary hparams).
        -- eapply appended_once_after; [eassumption|now apply Hout].
        -- rewrite Hout by assumption. apply S4.
      * assert (Hne : fst (fst tup) <> fst (fst t)).
        { intros Heq. apply Hnotin. rewrite <- Heq.
          now apply (in_map (fun t => fst (fst t))). }
        destruct (Hin tup Htup) as (T1 & T2 & T3 & T4).
        repeat split;
          try (eapply appended_once_before; [now apply Sother|eassumption]).
        destruct (is_binary hparams).
        -- eapply appended_once_before; [now apply Sother|eassumption].
        -- rewrite T4. now apply Sother.
    + intros name entry' Hn.
      rewrite Hout by (intros Hc; apply Hn; now right).
      apply Sother. intros Heq. apply Hn. now left.
Qed.

End MetricFacts.

(** X24. One pass of the metric loop over the seven methods appends exactly
    one value to the ssim, ergas and rmse lists of every method; the dice
    list of every method receives one value in binary mode and is left
    untouched in multi-class mode. *)
Theorem metric_loop_appends_once
        (score : Type)
        (dice_coeff ergas rmse : ndarray -> ndarray -> py score)
        (ssim : ndarray -> ndarray -> Z -> result score)
        (hparams : HParams) (hashmap : dict ndarray)
        (metrics metrics' : metric_table score) :
  score_entries score dice_coeff ergas rmse ssim hparams hashmap
    entity_tuples metrics = Return metrics' ->
  forall tup, In tup entity_tuples ->
    let entry := fst (fst tup) in
    appended_once score metrics metrics' "ssim" entry /\
    appended_once score metrics metrics' "ergas" entry /\
    appended_once score metrics metrics' "rmse" entry /\
    (if is_binary hparams
     then appended_once score metrics metrics' "dice" entry
     else values_of score metrics' "dice" entry =
          values_of score metrics "dice" entry).
Proof.
  intros H.
  apply (score_entries_effect dice_coeff ergas rmse ssim hparams hashmap
           entity_tuples metrics metrics'); [|exact H].
  cbn. repeat constructor; cbn; intuition discriminate.
Qed.

Lemma metric_loop_appends_once_witness :
  let hparams := mk_hparams false (1 # 2) (1 # 500) in
  let entry := "watershed"%string in
  appended_once Z (initial_metrics Z) (sample_scored hparams) "ssim" entry /\
  appended_once Z (initial_metrics Z) (sample_scored hparams) "ergas" entry /\
  appended_once Z (initial_metrics Z) (sample_scored hparams) "rmse" entry /\
  values_of Z (sample_scored hparams) "dice" entry =
  values_of Z (initial_metrics Z) "dice" entry.
Proof.
  apply (metric_loop_appends_once Z (fun _ _ => Return 1) (fun _ _ => Return 2)
           (fun _ _ => Return 3) (fun _ _ r => Ok r)
           (mk_hparams false (1 # 2) (1 # 500)) sample_maps
           (initial_metrics Z)
           (sample_scored (mk_hparams false (1 # 2) (1 # 500)))
           eq_refl
           ("watershed", "label_true", "label_watershed")%string).
  simpl. tauto.
Defined.

(** X25. In multi-class mode a candidate map whose shape differs from that
    of the reference map stops the metric loop at that entry with the
    [AssertionError] of [guided_relabel], before any metric routine is
    called for it. *)
Theorem multiclass_shape_mismatch_aborts
        (score : Type)
        (dice_coeff ergas rmse : ndarray -> ndarray -> py score)
        (ssim : ndarray -> ndarray -> Z -> result score)
        (hparams : HParams) (hashmap : dict ndarray)
        (metrics : metric_table score) (entry p1 p2 : string)
        (label_true label_pred : ndarray) (old : list score) :
  is_binary hparams = false ->
  dict_get hashmap p1 = Return label_true ->
  dict_get hashmap p2 = Return label_pred ->
  shape label_pred <> shape label_true ->
  values_of score metrics "ssim" entry = Return old ->
  score_entry score dice_coeff ergas rmse ssim hparams hashmap metrics
    (entry, p1, p2) = Throw (Builtin AssertionError).
Proof.
  intros Hb E1 E2 Hs Hv. unfold score_entry. cbv zeta. cbn [fst snd].
  rewrite Hb. unfold append_to at 1.
  unfold values_of in Hv.
  destruct (dict_get metrics "ssim") as [per|]; cbn [py_bind] in *;
    [|discriminate].
  rewrite Hv. cbn [py_bind].
  unfold relabelled. rewrite E1, E2. cbn [py_bind].
  unfold guided_relabel. rewrite (shape_eqb_neq _ _ Hs). reflexivity.
Qed.

Lemma multiclass_shape_mismatch_aborts_witness :
  score_entry Z (fun _ _ => Return 1) (fun _ _ => Return 2)
    (fun _ _ => Return 3) (fun _ _ r => Ok r)
    (mk_hparams false (1 # 2) (1 # 500))
    [("label_true", of_rows [[1; 2]]); ("label_random", of_rows [[1]; [2]])]%string
    (initial_metrics Z) ("random", "label_true", "label_random")%string =
  Throw (Builtin AssertionError).
Proof.
  apply (multiclass_shape_mismatch_aborts Z (fun _ _ => Return 1)
           (fun _ _ => Return 2) (fun _ _ => Return 3) (fun _ _ r => Ok r)
           (mk_hparams false (1 # 2) (1 # 500))
           [("label_true", of_rows [[1; 2]]);
            ("label_random", of_rows [[1]; [2]])]%string
           (initial_metrics Z) "random" "label_true" "label_random"
           (of_rows [[1; 2]]) (of_rows [[1]; [2]]) []);
    try reflexivity.
  simpl. discriminate.
Defined.

Lemma combine_hashmaps_last_wins_witness :
  exists combined,
    combine_hashmaps Z [sample_baselines; sample_kmeans; sample_diffusion] =
      Return combined /\
    NoDup (keys combined) /\
    (forall k, (forall h, In h [sample_baselines; sample_kmeans; sample_diffusion] ->
                          ~ In k (keys h)) ->
               dict_get combined k = Throw (KeyError k)) /\
    (forall before h after k,
        [sample_baselines; sample_kmeans; sample_diffusion] =
          before ++ h :: after ->
        In k (keys h) ->
        (forall h', In h' after -> ~ In k (keys h')) ->
        dict_get combined k = dict_get h k).
Proof.
  apply (combine_hashmaps_last_wins Z
           [sample_baselines; sample_kmeans; sample_diffusion]).
Defined.

Lemma run_completes_iff_witness :
  run (mk_world "berkeley" 2 2 2 (fun _ => true) (fun _ => true)
                (fun _ => true) (fun _ => true)) = Completed.
Proof.
  apply (proj2 (run_completes_iff
                  (mk_world "berkeley" 2 2 2 (fun _ => true) (fun _ => true)
                            (fun _ => true) (fun _ => true)))).
  simpl. repeat split; auto.
Defined.

Lemma segment_diffusion_early_errors_witness :
  segment_diffusion Z unit (fun _ => [2%nat; 2%nat]) (fun v _ => Ok v)
    (fun v _ _ => Return (v + 1, tt)) (fun v _ => Return (v + 2))
    sample_baselines (mk_hparams false (1 # 2) (1 # 500)) =
  Throw (KeyError "label_true").
Proof.
  apply (proj1 (segment_diffusion_early_errors Z unit (fun _ => [2%nat; 2%nat])
                  (fun v _ => Ok v) (fun v _ _ => Return (v + 1, tt))
                  (fun v _ => Return (v + 2)) sample_baselines
                  (mk_hparams false (1 # 2) (1 # 500)))).
  reflexivity.
Defined.

Lemma append_to_value {score : Type} (m m' : metric_table score)
      (name entry : string) (value : py score) :
  append_to score m name entry value = Return m' ->
  exists old x,
    value = Return x /\
    values_of score m name entry = Return old /\
    values_of score m' name entry = Return (old ++ [x]).
Proof.
  unfold append_to. intros H.
  destruct (dict_get m name) as [per|] eqn:E1; cbn [py_bind] in H;
    [|discriminate].
  destruct (dict_get per entry) as [old|] eqn:E2; cbn [py_bind] in H;
    [|discriminate].
  destruct value as [x|]; cbn [py_bind] in H; [|discriminate].
  injection H as <-. exists old, x. split; [reflexivity|].
  unfold values_of at 1. rewrite E1. cbn [py_bind]. split; [exact E2|].
  rewrite values_of_set_same. apply dict_get_set_same.
Qed.

(** X23. In the multi-class branch of the metric loop the value recorded
    under ssim is the similarity of the ground truth and the relabelled
    prediction, and the data range handed to the similarity routine is the
    range of the ground truth alone, max minus min in the dtype of the
    ground truth, whenever the ground-truth labels are representable in the
    dtype of the prediction. *)
Theorem multiclass_ssim_uses_truth_range
        (score : Type)
        (dice_coeff ergas rmse : ndarray -> ndarray -> py score)
        (ssim : ndarray -> ndarray -> Z -> result score)
        (hparams : HParams) (hashmap : dict ndarray)
        (metrics metrics' : metric_table score) (entry p1 p2 : string)
        (label_true label_pred : ndarray) (H W : nat) :
  is_binary hparams = false ->
  dict_get hashmap p1 = Return label_true ->
  dict_get hashmap p2 = Return label_pred ->
  wf label_pred -> wf label_true ->
  shape label_pred = [H; W] -> shape label_true = [H; W] ->
  (0 < H * W)%nat ->
  fits (dtype_of label_pred) (data label_true) ->
  score_entry score dice_coeff ergas rmse ssim hparams hashmap metrics
    (entry, p1, p2) = Return metrics' ->
  exists out t_max t_min old x,
    guided_relabel label_pred label_true = Ok out /\
    array_max label_true = Ok t_max /\
    array_min label_true = Ok t_min /\
    ssim label_true out (cast (dtype_of label_true) (t_max - t_min)) = Ok x /\
    values_of score metrics "ssim" entry = Return old /\
    values_of score metrics' "ssim" entry = Return (old ++ [x]).
Proof.
  intros Hb E1 E2 WP WT SP ST Hpos Hfit Hrun.
  destruct (relabelled_data_range label_pred label_true H W WP WT SP ST Hpos Hfit)
    as (out & t_max & t_min & Eout & Emax & Emin & Er).
  unfold score_entry in Hrun. cbv zeta in Hrun. cbn [fst snd] in Hrun.
  rewrite Hb in Hrun.
  py_step Hrun. py_step Hrun.
  apply append_to_value in E. destruct E as (old & x & Ev & Eold & Enew).
  apply append_to_inv in E0, Hrun.
  destruct E0 as [_ U2], Hrun as [_ U3].
  rewrite E1 in Ev. cbn [py_bind] in Ev.
  unfold relabelled in Ev. rewrite E2, E1 in Ev. cbn [py_bind] in Ev.
  rewrite Eout in Ev. cbn [lift py_bind] in Ev.
  unfold range_aware_ssim in Ev. rewrite Er in Ev. cbn [bind] in Ev.
  exists out, t_max, t_min, old, x. repeat split; auto.
  - destruct (ssim label_true out _) as [y|]; cbn [lift] in Ev;
      [congruence|discriminate].
  - rewrite U3 by (left; discriminate). rewrite U2 by (left; discriminate).
    exact Enew.
Qed.

Lemma multiclass_ssim_uses_truth_range_witness :
  exists out t_max t_min old x,
    guided_relabel (of_rows [[5; 5]; [6; 6]]) (of_rows [[1; 1]; [2; 2]]) = Ok out /\
    array_max (of_rows [[1; 1]; [2; 2]]) = Ok t_max /\
    array_min (of_rows [[1; 1]; [2; 2]]) = Ok t_min /\
    (fun (_ _ : ndarray) (r : Z) => Ok r) (of_rows [[1; 1]; [2; 2]]) out
      (cast (dtype_of (of_rows [[1; 1]; [2; 2]])) (t_max - t_min)) = Ok x /\
    values_of Z (initial_metrics Z) "ssim" "watershed" = Return old /\
    values_of Z
      (match score_entry Z (fun _ _ => Return 1) (fun _ _ => Return 2)
               (fun _ _ => Return 3) (fun _ _ r => Ok r)
               (mk_hparams false (1 # 2) (1 # 500)) sample_maps
               (initial_metrics Z)
               ("watershed", "label_true", "label_watershed")%string with
       | Return m => m
       | Throw _ => []
       end) "ssim" "watershed" = Return (old ++ [x]).
Proof.
  apply (multiclass_ssim_uses_truth_range Z (fun _ _ => Return 1)
           (fun _ _ => Return 2) (fun _ _ => Return 3) (fun _ _ r => Ok r)
           (mk_hparams false (1 # 2) (1 # 500)) sample_maps
           (initial_metrics Z) _ "watershed" "label_true" "label_watershed"
           (of_rows [[1; 1]; [2; 2]]) (of_rows [[5; 5]; [6; 6]]) 2 2);
    try reflexivity.
  - simpl. lia.
  - repeat constructor.
Defined.
